(** * Miniconf over MQTT: the request/response correlation engine

    A shallow embedding of [miniconf.py]: the [Miniconf] session object
    (identifier counter, in-flight registry), the inbound handler
    [_handle_response], the coroutine [command] up to its [await], and the
    command-line loop [configure_settings] of [main].

    Python integers are unbounded, so the counter is a [Z].  Futures are
    objects shared between the registry and the awaiting caller: they live
    in a store indexed by handle.  A raised exception leaves every mutation
    made before it in place, so every operation returns the state it
    reached together with its result. *)

From Stdlib Require Import ZArith Lia Strings.Byte Strings.Ascii Strings.String.
From stdpp Require Import gmap strings list fin_maps pretty.

Set Warnings "-register-all".
Local Open Scope Z_scope.
Local Open Scope string_scope.

(** ** Bytes and the integer codec of the correlation data *)

#[global] Instance byte_eq_decision : EqDecision Byte.byte := Byte.byte_eq_dec.

Module Bytes.

Definition byte_val (b : Byte.byte) : Z := Z.of_N (Byte.to_N b).

Definition byte_of_Z (z : Z) : Byte.byte :=
  default Byte.x00 (Byte.of_N (Z.to_N (z mod 256))).

(** [int.from_bytes(bs, 'big')]: any length is accepted, the empty
    byte string decodes to 0. *)
Definition from_bytes_big (bs : list Byte.byte) : Z :=
  fold_left (fun acc b => acc * 256 + byte_val b) bs 0.

(** The [len] low base-256 digits of [n], most significant first. *)
Fixpoint be_digits (len : nat) (n : Z) : list Byte.byte :=
  match len with
  | O => []
  | S k => be_digits k (n / 256) ++ [byte_of_Z n]
  end.

(** [n.to_bytes(len, 'big')] for an unsigned conversion: [None] stands
    for the [OverflowError] Python raises when [n] is negative or does
    not fit in [len] bytes. *)
Definition to_bytes_big (n : Z) (len : nat) : option (list Byte.byte) :=
  if decide (0 <= n < 256 ^ Z.of_nat len) then Some (be_digits len n)
  else None.

End Bytes.

(** ** Python values and exceptions *)

(** The values [json.loads] produces.  Numbers with a fraction or an
    exponent are not represented. *)
Inductive json : Type :=
| JNull
| JBool (b : bool)
| JInt (n : Z)
| JStr (s : string)
| JList (l : list json)
| JDict (d : list (string * json)).

(** What [json.loads] raises: [JSONDecodeError] for a text that is not
    JSON, [UnicodeDecodeError] for bytes that are not text, or another
    exception, given by its name. *)
Inductive loads_exn : Type :=
| JSONDecodeError
| UnicodeDecodeError
| OtherLoadsError (name : string).

Inductive exn : Type :=
| KeyError
| IndexError
| TypeError
| ValueError
| OverflowError
| AssertionError (msg : string)
| DecoderError (e : loads_exn)
| InvalidStateError.

Inductive result (A : Type) : Type :=
| Ok (a : A)
| Raise (e : exn).
Arguments Ok {A} a.
Arguments Raise {A} e.

(** What a call of [json.loads] does: it returns a value or raises. *)
Inductive loaded : Type :=
| Loaded (v : json)
| LoadsError (e : loads_exn).

Definition is_Loaded (r : loaded) : Prop := exists v, r = Loaded v.

(** The value of a call that returned, nothing for one that raised. *)
Definition loaded_value (r : loaded) : option json :=
  match r with
  | Loaded v => Some v
  | LoadsError _ => None
  end.

(** ** The session, the futures of the event loop and the trace *)

Inductive fstate : Type :=
| Pending
| Finished (v : json).

Record Miniconf : Type := mkMiniconf {
  uuid_hex : string;
  request_id : Z;
  prefix : string;
  inflight : gmap Z nat
}.

(** An outbound [client.publish] call. *)
Record publication : Type := mkPublication {
  pub_topic : string;
  pub_payload : string;
  pub_qos : Z;
  pub_retain : bool;
  pub_response_topic : string;
  pub_correlation_data : list Byte.byte
}.

(** An inbound message as handed to the [on_message] callback; the
    payload is a byte string. *)
Record message : Type := mkMessage {
  msg_topic : string;
  msg_payload : list Byte.byte;
  msg_qos : Z;
  msg_properties : gmap string (list (list Byte.byte))
}.

(** What an execution does to the registry, the futures and the outside,
    in the order it does it. *)
Inductive event : Type :=
| EvSubscribe (topic : string)
| EvLogInfo (value topic : string)
| EvInflightSet (id : Z) (fut : nat)
| EvInflightDel (id : Z)
| EvSetResult (fut : nat) (v : json)
| EvPublish (p : publication)
| EvPrint (path : string) (response : json).

Record world : Type := mkWorld {
  self : Miniconf;
  futures : list fstate;
  trace : list event
}.

Definition with_request_id (n : Z) (w : world) : world :=
  mkWorld (mkMiniconf (uuid_hex (self w)) n (prefix (self w)) (inflight (self w)))
          (futures w) (trace w).

Definition with_inflight (m : gmap Z nat) (w : world) : world :=
  mkWorld (mkMiniconf (uuid_hex (self w)) (request_id (self w)) (prefix (self w)) m)
          (futures w) (trace w).

Definition with_futures (fs : list fstate) (w : world) : world :=
  mkWorld (self w) fs (trace w).

Definition emit (e : event) (w : world) : world :=
  mkWorld (self w) (futures w) (trace w ++ [e]).

(** ** State and exception monad *)

Definition M (A : Type) : Type := world -> result A * world.

Definition ret {A} (a : A) : M A := fun w => (Ok a, w).
Definition raise {A} (e : exn) : M A := fun w => (Raise e, w).
Definition bind {A B} (c : M A) (k : A -> M B) : M B :=
  fun w => match c w with
           | (Ok a, w1) => k a w1
           | (Raise e, w1) => (Raise e, w1)
           end.

Notation "x <~ c >> k" := (bind c (fun x => k))
  (at level 20, c at level 99, k at level 200, only parsing).
Notation "c >> k" := (bind c (fun _ => k))
  (at level 100, k at level 200, only parsing, right associativity).

Definition get : M world := fun w => (Ok w, w).
Definition update (f : world -> world) : M unit := fun w => (Ok tt, f w).
Definition lift_opt {A} (e : exn) (o : option A) : M A :=
  match o with Some a => ret a | None => raise e end.
Definition lift_loaded (r : loaded) : M json :=
  match r with Loaded v => ret v | LoadsError e => raise (DecoderError e) end.

(** ** Primitive operations *)

(** [asyncio.get_running_loop().create_future()]: a fresh pending future;
    its handle is its index in the store. *)
Definition create_future : M nat :=
  fun w => (Ok (length (futures w)), with_futures (futures w ++ [Pending]) w).

(** [fut.set_result(v)]: only a pending future accepts a result. *)
Definition set_result (fut : nat) (v : json) : M unit :=
  fun w => match futures w !! fut with
           | Some Pending =>
               (Ok tt, emit (EvSetResult fut v)
                         (with_futures (<[fut := Finished v]> (futures w)) w))
           | _ => (Raise InvalidStateError, w)
           end.

(** [self.inflight[id]] *)
Definition inflight_getitem (id : Z) : M nat :=
  w <~ get >> lift_opt KeyError (inflight (self w) !! id).

(** [self.inflight[id] = fut] *)
Definition inflight_setitem (id : Z) (fut : nat) : M unit :=
  update (fun w => emit (EvInflightSet id fut)
                     (with_inflight (<[id := fut]> (inflight (self w))) w)).

(** [del self.inflight[id]] *)
Definition inflight_delitem (id : Z) : M unit :=
  w <~ get >>
  match inflight (self w) !! id with
  | Some _ => update (fun w => emit (EvInflightDel id)
                                 (with_inflight (delete id (inflight (self w))) w))
  | None => raise KeyError
  end.

(** [properties['correlation_data'][0]] *)
Definition correlation_data_of (properties : gmap string (list (list Byte.byte)))
  : M (list Byte.byte) :=
  vals <~ lift_opt KeyError (properties !! "correlation_data") >>
  lift_opt IndexError (vals !! 0%nat).

(** [response[key]] on a decoded value: only a dictionary can be indexed by
    a string. *)
Fixpoint dict_get (key : string) (d : list (string * json)) : option json :=
  match d with
  | [] => None
  | (k, v) :: rest => if decide (k = key) then Some v else dict_get key rest
  end.

Definition getitem (response : json) (key : string) : result json :=
  match response with
  | JDict d => match dict_get key d with
               | Some v => Ok v
               | None => Raise KeyError
               end
  | _ => Raise TypeError
  end.

(** [v != 0] on a decoded value: booleans compare as the integers 0 and 1,
    every other non-number differs from 0. *)
Definition ne_zero (v : json) : bool :=
  match v with
  | JInt n => negb (Z.eqb n 0)
  | JBool b => b
  | _ => true
  end.


(** [key_value.split("=", 1)]: at most one split, at the first "=". *)
Fixpoint split_eq1 (key_value : string) : list string :=
  match key_value with
  | EmptyString => [EmptyString]
  | String c rest =>
      if Ascii.eqb c "="%char then [EmptyString; rest]
      else match split_eq1 rest with
           | hd :: tl => String c hd :: tl
           | [] => [String c EmptyString]
           end
  end.


(** How a run of [configure_settings] ends: it returns a value that is
    handed to [sys.exit], an exception escapes, or the awaited future is
    never completed. *)
Inductive outcome : Type :=
| Exit (v : json)
| Uncaught (e : exn)
| Blocked.

(** The operations of a session as seen from outside: a caller starts a
    command, or the transport hands over an inbound message. *)
Inductive action : Type :=
| Call (path : string) (value : json) (retain : bool)
| Recv (m : message).

(** The publications of a trace, oldest first. *)
Definition published (t : list event) : list publication :=
  omap (fun e => match e with EvPublish p => Some p | _ => None end) t.

(** The first value of the correlation property, when there is one. *)
Definition correlation_bytes (m : message) : option (list Byte.byte) :=
  vals ← msg_properties m !! "correlation_data"; vals !! 0%nat.

Section Session.

(** The JSON codec is the standard library's; the engine treats it as an
    opaque decoder and encoder.  [json.loads] is applied to the bytes of a
    payload in the handler and to the text of a command-line argument in
    [main]: these are [json_loads] and [json_loads_str], and each returns
    its value or raises its own exception.  For [json_dumps], [None]
    stands for the exception the encoder raises. *)
Variable json_loads : list Byte.byte -> loaded.
Variable json_loads_str : string -> loaded.
Variable json_dumps : json -> option string.

(** [Miniconf.__init__]: the counter starts at 0 with nothing in flight,
    and the session subscribes to its private response topic. *)
Definition init (uuid pfx : string) (futs : list fstate) : world :=
  emit (EvSubscribe (pfx ++ "/response/" ++ uuid))
    (mkWorld (mkMiniconf uuid 0 pfx ∅) futs []).

Definition _handle_response (m : message) : M unit :=
  cd <~ correlation_data_of (msg_properties m) >>
  let request_id := Bytes.from_bytes_big cd in
  fut <~ inflight_getitem request_id >>
  v <~ lift_loaded (json_loads (msg_payload m)) >>
  set_result fut v >>
  inflight_delitem request_id.

(** [request_id = self.request_id; self.request_id += 1]: the
    identifier of the request is the counter as read; the counter is a
    Python integer and is incremented without any reduction. *)
Definition allocate : M Z :=
  w <~ get >>
  let request_id := request_id (self w) in
  update (with_request_id (request_id + 1)) >>
  ret request_id.

(** [command] up to its [await]: the handle of the future it awaits. *)
Definition command (path : string) (value : json) (retain : bool) : M nat :=
  w <~ get >>
  let setting_topic := prefix (self w) ++ "/settings/" ++ path in
  let response_topic := prefix (self w) ++ "/response/" ++ uuid_hex (self w) in
  request_id <~ allocate >>
  w <~ get >>
  (if decide (inflight (self w) !! request_id = None) then ret tt
   else raise (AssertionError "Invalid ID encountered")) >>
  correlation_data <~ lift_opt OverflowError (Bytes.to_bytes_big request_id 4) >>
  value <~ lift_opt TypeError (json_dumps value) >>
  update (emit (EvLogInfo value setting_topic)) >>
  fut <~ create_future >>
  inflight_setitem request_id fut >>
  update (emit (EvPublish (mkPublication setting_topic value 0 retain
                             response_topic correlation_data))) >>
  ret fut.

(** [await fut] once the loop has run: the result, if the future has one. *)
Definition awaited (fut : nat) (w : world) : option json :=
  match futures w !! fut with
  | Some (Finished v) => Some v
  | _ => None
  end.

(** Inbound messages handed over one after the other.  What the handler
    raises goes to the transport that called it; the state it reached
    stays. *)
Fixpoint deliver (ms : list message) (w : world) : list (result unit) * world :=
  match ms with
  | [] => ([], w)
  | m :: rest =>
      let (r, w1) := _handle_response m w in
      let (rs, w2) := deliver rest w1 in
      (r :: rs, w2)
  end.

(** Commands started one after the other, none of them resumed yet. *)
Fixpoint issue (cs : list (string * json * bool)) (w : world)
  : list (result nat) * world :=
  match cs with
  | [] => ([], w)
  | (path, value, retain) :: rest =>
      let (r, w1) := command path value retain w in
      let (rs, w2) := issue rest w1 in
      (r :: rs, w2)
  end.

Definition perform (a : action) (w : world) : world :=
  match a with
  | Call path value retain => snd (command path value retain w)
  | Recv m => snd (_handle_response m w)
  end.

Definition run (acts : list action) (w : world) : world :=
  foldl (fun w a => perform a w) w acts.

(** The identifiers the calls of [acts] are assigned, in call order. *)
Fixpoint assigned (acts : list action) (w : world) : list Z :=
  match acts with
  | [] => []
  | a :: rest =>
      match a, allocate w with
      | Call _ _ _, (Ok id, _) => id :: assigned rest (perform a w)
      | _, _ => assigned rest (perform a w)
      end
  end.

(** The states a session can be in: as constructed, then after any
    interleaving of calls and inbound messages. *)
Inductive reachable : world -> Prop :=
| reach_init uuid pfx futs : reachable (init uuid pfx futs)
| reach_step a w : reachable w -> reachable (perform a w).

(** ** The command-line loop *)

(** The far end: the messages that arrive on the response topic, in
    order, after a publication and before the awaiting caller runs
    again. *)
Variable device : publication -> list message.

(** [await fut]: the loop runs the handler on what arrives, then the
    caller is resumed if its future has a result. *)
Definition await (fut : nat) (w : world) : option json * world :=
  let arrived := from_option device [] (last (published (trace w))) in
  let w1 := snd (deliver arrived w) in
  (awaited fut w1, w1).

(** The [for] loop of [configure_settings]. *)
Fixpoint configure_loop (no_retain : bool) (settings : list string) (w : world)
  : outcome * world :=
  match settings with
  | [] => (Exit (JInt 0), w)
  | key_value :: rest =>
      match split_eq1 key_value with
      | [path; value] =>
          match json_loads_str value with
          | LoadsError e => (Uncaught (DecoderError e), w)
          | Loaded v =>
              match command path v (negb no_retain) w with
              | (Raise e, w1) => (Uncaught e, w1)
              | (Ok fut, w1) =>
                  match await fut w1 with
                  | (None, w2) => (Blocked, w2)
                  | (Some response, w2) =>
                      let w3 := emit (EvPrint path response) w2 in
                      match getitem response "code" with
                      | Raise e => (Uncaught e, w3)
                      | Ok code =>
                          if ne_zero code then (Exit code, w3)
                          else configure_loop no_retain rest w3
                      end
                  end
              end
          end
      | _ => (Uncaught ValueError, w)
      end
  end.


End Session.

(** ** Well-formed states *)

(** Every registered identifier is one the counter has already passed and
    fits in four bytes, its future is pending, and no future is registered
    twice. *)
Record wf (w : world) : Prop := mkWf {
  wf_counter : 0 <= request_id (self w);
  wf_key : forall id fut, inflight (self w) !! id = Some fut ->
             0 <= id < request_id (self w) /\ id < 2 ^ 32;
  wf_pending : forall id fut, inflight (self w) !! id = Some fut ->
             futures w !! fut = Some Pending;
  wf_inj : forall id1 id2 fut, inflight (self w) !! id1 = Some fut ->
             inflight (self w) !! id2 = Some fut -> id1 = id2
}.

(** The world a [command] that publishes leaves, written out. *)
Definition sent (path payload : string) (retain : bool)
    (cd : list Byte.byte) (w : world) : world :=
  let id := request_id (self w) in
  let fut := length (futures w) in
  mkWorld
    (mkMiniconf (uuid_hex (self w)) (id + 1) (prefix (self w))
                (<[id := fut]> (inflight (self w))))
    (futures w ++ [Pending])
    (trace w ++
       [EvLogInfo payload (prefix (self w) ++ "/settings/" ++ path);
        EvInflightSet id fut;
        EvPublish (mkPublication (prefix (self w) ++ "/settings/" ++ path)
                     payload 0 retain
                     (prefix (self w) ++ "/response/" ++ uuid_hex (self w)) cd)]).

(** The world a [_handle_response] that resolves a request leaves,
    written out. *)
Definition resolved (id : Z) (fut : nat) (v : json) (w : world) : world :=
  mkWorld
    (mkMiniconf (uuid_hex (self w)) (request_id (self w)) (prefix (self w))
                (delete id (inflight (self w))))
    (<[fut := Finished v]> (futures w))
    (trace w ++ [EvSetResult fut v; EvInflightDel id]).

(** ** Vocabulary of the statements *)

(** The identifier an inbound message carries, as the handler reads it. *)
Definition carried_id (m : message) : option Z :=
  Bytes.from_bytes_big <$> correlation_bytes m.

(** The number of calls among the actions. *)
Fixpoint calls (acts : list action) : nat :=
  match acts with
  | [] => O
  | Call _ _ _ :: rest => S (calls rest)
  | Recv _ :: rest => calls rest
  end.

(** What an execution from [w] to [w'] added to the trace. *)
Definition new_events (w w' : world) : list event :=
  drop (length (trace w)) (trace w').



Section Expected.
Variable json_loads : list Byte.byte -> loaded.
Variable json_loads_str : string -> loaded.
Variable json_dumps : json -> option string.
Variable device : publication -> list message.




End Expected.

(** ** A codec to run the model on concrete messages

    The theorems below hold for any decoder and encoder.  To evaluate the
    model on concrete inputs, this is a codec for the fragment of JSON
    made of [null], [true], [false], integers, strings without escape
    sequences, arrays and objects; a text outside the fragment is
    rejected. *)

Module SampleCodec.

Definition dquote : ascii := ascii_of_nat 34.
Definition quoted (s : string) : string :=
  String dquote (s ++ String dquote EmptyString).

Definition is_ws (c : ascii) : bool :=
  bool_decide (nat_of_ascii c ∈ [32; 9; 10; 13]%nat).
Definition is_digit (c : ascii) : bool :=
  bool_decide (48 <= nat_of_ascii c <= 57)%nat.
Definition digit_val (c : ascii) : Z := Z.of_nat (nat_of_ascii c) - 48.

Fixpoint skip_ws (s : string) : string :=
  match s with
  | String c rest => if is_ws c then skip_ws rest else s
  | EmptyString => s
  end.

Fixpoint read_digits (acc : Z) (s : string) : Z * string :=
  match s with
  | String c rest =>
      if is_digit c then read_digits (acc * 10 + digit_val c) rest else (acc, s)
  | EmptyString => (acc, s)
  end.

(** [0] or a nonzero digit followed by digits; a fraction or an exponent
    after it is outside the fragment. *)
Definition read_nat (s : string) : option (Z * string) :=
  match s with
  | String c rest =>
      if is_digit c then
        let (n, rest') :=
          if Ascii.eqb c "0" then (0, rest) else read_digits (digit_val c) rest in
        match rest' with
        | String d _ =>
            if bool_decide (nat_of_ascii d ∈ [46; 69; 101]%nat) then None
            else Some (n, rest')
        | EmptyString => Some (n, rest')
        end
      else None
  | EmptyString => None
  end.

(** The characters up to the closing quote; a backslash or a control
    character is outside the fragment. *)
Fixpoint read_string (s : string) : option (string * string) :=
  match s with
  | EmptyString => None
  | String c rest =>
      if Ascii.eqb c dquote then Some (EmptyString, rest)
      else if bool_decide (nat_of_ascii c = 92 \/ nat_of_ascii c < 32)%nat then None
      else '(body, rest') ← read_string rest; Some (String c body, rest')
  end.

Definition expect (lit : string) (v : json) (s : string) : option (json * string) :=
  if String.prefix lit s
  then Some (v, String.substring (String.length lit)
                  (String.length s - String.length lit) s)
  else None.

(** A later binding of a key replaces the earlier one. *)
Fixpoint dict_set (k : string) (v : json) (d : list (string * json))
  : list (string * json) :=
  match d with
  | [] => [(k, v)]
  | (k', v') :: rest =>
      if decide (k' = k) then (k, v) :: rest else (k', v') :: dict_set k v rest
  end.

Section Items.
Variable read_value : string -> option (json * string).

(** After an element: a comma and the next element, or the bracket. *)
Fixpoint read_elements (fuel : nat) (acc : list json) (s : string)
  : option (json * string) :=
  match fuel with
  | O => None
  | S fuel =>
      '(v, rest) ← read_value s;
      match skip_ws rest with
      | String c rest' =>
          if Ascii.eqb c "," then read_elements fuel (acc ++ [v]) rest'
          else if Ascii.eqb c "]" then Some (JList (acc ++ [v]), rest')
          else None
      | EmptyString => None
      end
  end.

Fixpoint read_members (fuel : nat) (acc : list (string * json)) (s : string)
  : option (json * string) :=
  match fuel with
  | O => None
  | S fuel =>
      match skip_ws s with
      | String q rest =>
          if Ascii.eqb q dquote then
            '(k, rest) ← read_string rest;
            match skip_ws rest with
            | String c rest =>
                if Ascii.eqb c ":" then
                  '(v, rest) ← read_value rest;
                  match skip_ws rest with
                  | String c rest' =>
                      if Ascii.eqb c "," then read_members fuel (dict_set k v acc) rest'
                      else if Ascii.eqb c "}" then Some (JDict (dict_set k v acc), rest')
                      else None
                  | EmptyString => None
                  end
                else None
            | EmptyString => None
            end
          else None
      | EmptyString => None
      end
  end.
End Items.

Fixpoint read_value (fuel : nat) (s : string) : option (json * string) :=
  match fuel with
  | O => None
  | S fuel =>
      match skip_ws s with
      | EmptyString => None
      | String c rest =>
          if Ascii.eqb c "n" then expect "ull" JNull rest
          else if Ascii.eqb c "t" then expect "rue" (JBool true) rest
          else if Ascii.eqb c "f" then expect "alse" (JBool false) rest
          else if Ascii.eqb c dquote then
            '(body, rest') ← read_string rest; Some (JStr body, rest')
          else if Ascii.eqb c "-" then
            '(n, rest') ← read_nat rest; Some (JInt (- n), rest')
          else if is_digit c then
            '(n, rest') ← read_nat (String c rest); Some (JInt n, rest')
          else if Ascii.eqb c "[" then
            match skip_ws rest with
            | String "]" rest' => Some (JList [], rest')
            | _ => read_elements (read_value fuel) (String.length rest) [] rest
            end
          else if Ascii.eqb c "{" then
            match skip_ws rest with
            | String "}" rest' => Some (JDict [], rest')
            | _ => read_members (read_value fuel) (String.length rest) [] rest
            end
          else None
      end
  end.

(** One value, white space around it. *)
Definition parse (s : string) : option json :=
  '(v, rest) ← read_value (S (String.length s)) s;
  match skip_ws rest with
  | EmptyString => Some v
  | _ => None
  end.

(** [json.loads] on a text of the fragment. *)
Definition loads_str (s : string) : loaded :=
  match parse s with
  | Some v => Loaded v
  | None => LoadsError JSONDecodeError
  end.

(** [json.loads] on the bytes of a text of the fragment.  The fragment is
    ASCII: a byte above 0x7F is reported as Python reports a byte that is
    not UTF-8 text, such as 0xFF. *)
Definition loads (payload : list Byte.byte) : loaded :=
  if forallb (fun b => (Byte.to_N b <? 128)%N) payload
  then loads_str (string_of_list_byte payload)
  else LoadsError UnicodeDecodeError.

Definition plain (s : string) : bool :=
  forallb (fun c => negb (Ascii.eqb c dquote) && negb (Ascii.eqb c "\")
                    && bool_decide (32 <= nat_of_ascii c < 127)%nat)
          (list_ascii_of_string s).

Definition join (sep : string) (parts : list string) : string :=
  match parts with
  | [] => EmptyString
  | p :: ps => foldl (fun acc x => acc ++ sep ++ x) p ps
  end.

(** [json.dumps] on the fragment, with the default separators. *)
Fixpoint dumps (v : json) : option string :=
  match v with
  | JNull => Some "null"
  | JBool b => Some (if b then "true" else "false")
  | JInt n => Some (pretty n)
  | JStr s => if plain s then Some (quoted s) else None
  | JList l =>
      parts ← (fix go (l : list json) : option (list string) :=
                 match l with
                 | [] => Some []
                 | x :: r => p ← dumps x; ps ← go r; Some (p :: ps)
                 end) l;
      Some ("[" ++ join ", " parts ++ "]")
  | JDict d =>
      parts ← (fix go (d : list (string * json)) : option (list string) :=
                 match d with
                 | [] => Some []
                 | (k, x) :: r =>
                     if plain k then
                       p ← dumps x; ps ← go r; Some ((quoted k ++ ": " ++ p) :: ps)
                     else None
                 end) d;
      Some ("{" ++ join ", " parts ++ "}")
  end.

End SampleCodec.

(** ** Concrete sessions and messages *)

Module Scenario.
Import SampleCodec.

Definition session_id : string := "0f1e2d3c4b5a69788796a5b4c3d2e1f0".

(** A session on the prefix [dt/dev], as constructed. *)
Definition fresh : world := init session_id "dt/dev" [].

(** An inbound message on the session's response topic. *)
Definition response (properties : gmap string (list (list Byte.byte)))
    (payload : string) : message :=
  mkMessage ("dt/dev/response/" ++ session_id) (list_byte_of_string payload) 0
    properties.

Definition correlated (cd : list Byte.byte) : gmap string (list (list Byte.byte)) :=
  {[ "correlation_data" := [cd] ]}.

(** The payload of a response with the given status. *)
Definition status (code : string) : string :=
  "{" ++ quoted "code" ++ ": " ++ code ++ "}".

Definition id0 : list Byte.byte := [Byte.x00; Byte.x00; Byte.x00; Byte.x00].
Definition id1 : list Byte.byte := [Byte.x00; Byte.x00; Byte.x00; Byte.x01].
Definition id7 : list Byte.byte := [Byte.x00; Byte.x00; Byte.x00; Byte.x07].

Definition set_afe0 : action := Call "afe/0" (JStr "G2") true.

(** One command started and not yet answered. *)
Definition one_pending : world := perform loads dumps set_afe0 fresh.

(** Two commands started one after the other. *)
Definition two_commands : list (string * json * bool) :=
  [("afe/0", JStr "G2", true); ("afe/1", JStr "G1", true)].
Definition two_pending : world := snd (issue dumps two_commands fresh).

(** Their responses, the second request answered first. *)
Definition reversed : list message :=
  [response (correlated id1) (status "1"); response (correlated id0) (status "0")].

(** A session whose counter has passed the last four-byte value. *)
Definition exhausted : world := with_request_id (2 ^ 32) fresh.

(** One call more than there are four-byte identifiers. *)
Definition many_calls : list action := replicate (Z.to_nat (2 ^ 32 + 1)) set_afe0.

(** A device that rejects the setting [afe/1] with status 7 and accepts
    every other one. *)
Definition device (p : publication) : list message :=
  [response (correlated (pub_correlation_data p))
     (status (if decide (pub_topic p = "dt/dev/settings/afe/1") then "7" else "0"))].



End Scenario.

(** ** Further vocabulary *)

(** ['=' in key_value] *)
Fixpoint contains_eq (s : string) : bool :=
  match s with
  | EmptyString => false
  | String c rest => Ascii.eqb c "="%char || contains_eq rest
  end.

(** The number of futures an execution has given a result. *)
Definition resolutions (t : list event) : nat :=
  length (omap (fun e => match e with EvSetResult fut _ => Some fut | _ => None end) t).

Module ScenarioMore.
Import SampleCodec.
Import Scenario.

(** A device that never answers. *)
Definition silent (p : publication) : list message := [].

(** A device whose answer has no status. *)
Definition statusless (p : publication) : list message :=
  [response (correlated (pub_correlation_data p)) "{}"].

(** The publication of the first command of [one_pending]. *)
Definition first_publication : publication :=
  mkPublication "dt/dev/settings/afe/0" (quoted "G2") 0 true
    ("dt/dev/response/" ++ session_id) id0.

(** The session once the pending request 0 has been answered. *)
Definition answered : world :=
  snd (_handle_response loads (response (correlated id0) (status "0")) one_pending).

(** The first setting of a run sends the value 1 to [afe/0]. *)
Definition sent_one : world := snd (command dumps "afe/0" (JInt 1) true fresh).

Definition publication_one : publication :=
  mkPublication "dt/dev/settings/afe/0" "1" 0 true
    ("dt/dev/response/" ++ session_id) id0.

(** A later call and a late response for the same identifier. *)
Definition later : list action :=
  [set_afe0; Recv (response (correlated id0) (status "1"))].

(** A response for request 0 whose payload is the single byte 0xFF. *)
Definition not_text : message :=
  mkMessage ("dt/dev/response/" ++ session_id) [Byte.xff] 0 (correlated id0).




End ScenarioMore.

(** * Properties *)

(** ** The integer codec *)

Module BytesFacts.
Import Bytes.

Lemma byte_val_of_Z z : byte_val (byte_of_Z z) = z mod 256.
Proof.
  unfold byte_val, byte_of_Z.
  pose proof (Z.mod_pos_bound z 256 ltac:(lia)) as Hb.
  destruct (Byte.of_N (Z.to_N (z mod 256))) as [b|] eqn:E; simpl.
  - apply Byte.to_of_N in E. rewrite E. apply Z2N.id. lia.
  - apply Byte.of_N_None_iff in E. lia.
Qed.

Lemma from_bytes_snoc bs b :
  from_bytes_big (bs ++ [b]) = from_bytes_big bs * 256 + byte_val b.
Proof. unfold from_bytes_big. now rewrite fold_left_app. Qed.

Lemma length_be_digits len n : length (be_digits len n) = len.
Proof.
  revert n. induction len as [|k IH]; intros n; simpl; [done|].
  rewrite length_app, IH. simpl. lia.
Qed.

Lemma from_be_digits len n :
  0 <= n -> from_bytes_big (be_digits len n) = n mod 256 ^ Z.of_nat len.
Proof.
  revert n. induction len as [|k IH]; intros n Hn.
  - simpl. now rewrite Z.mod_1_r.
  - cbn [be_digits]. rewrite from_bytes_snoc, byte_val_of_Z.
    rewrite IH by (apply Z.div_pos; lia).
    rewrite Nat2Z.inj_succ, Z.pow_succ_r by lia.
    rewrite (Z.rem_mul_r n 256 (256 ^ Z.of_nat k)) by lia. lia.
Qed.

(** Decoding undoes encoding, for every length. *)
Lemma from_to_bytes n len bs :
  to_bytes_big n len = Some bs -> from_bytes_big bs = n.
Proof.
  unfold to_bytes_big. case_decide as Hr; [|done].
  intros [= <-]. rewrite from_be_digits by lia. apply Z.mod_small. lia.
Qed.

Lemma to_bytes_is_Some n len :
  is_Some (to_bytes_big n len) <-> 0 <= n < 256 ^ Z.of_nat len.
Proof.
  unfold to_bytes_big. case_decide; split; intros H'; eauto; try done.
Qed.

Lemma to_bytes_length n len bs :
  to_bytes_big n len = Some bs -> length bs = len.
Proof.
  unfold to_bytes_big. case_decide; [|done]. intros [= <-].
  apply length_be_digits.
Qed.

End BytesFacts.

(** ** The two operations, case by case *)

Section Equations.
Variable json_loads : list Byte.byte -> loaded.
Variable json_dumps : json -> option string.

Lemma command_eq path value retain w :
  command json_dumps path value retain w =
    let id := request_id (self w) in
    let w1 := with_request_id (id + 1) w in
    match inflight (self w) !! id with
    | Some _ => (Raise (AssertionError "Invalid ID encountered"), w1)
    | None =>
        match Bytes.to_bytes_big id 4 with
        | None => (Raise OverflowError, w1)
        | Some cd =>
            match json_dumps value with
            | None => (Raise TypeError, w1)
            | Some payload => (Ok (length (futures w)), sent path payload retain cd w)
            end
        end
    end.
Proof.
  unfold command, allocate, bind, get, update, ret; cbn.
  destruct (inflight (self w) !! request_id (self w)) as [f|] eqn:Hin.
  - case_decide as Hd; [congruence|]. reflexivity.
  - case_decide as Hd; [|congruence]. cbn.
    destruct (Bytes.to_bytes_big (request_id (self w)) 4) as [cd|]; cbn; [|done].
    destruct (json_dumps value) as [payload|]; cbn; [|done].
    unfold sent, inflight_setitem, update, emit, with_inflight, with_futures; cbn.
    rewrite <- !app_assoc. reflexivity.
Qed.

Lemma handle_response_eq m w :
  _handle_response json_loads m w =
    match msg_properties m !! "correlation_data" with
    | None => (Raise KeyError, w)
    | Some [] => (Raise IndexError, w)
    | Some (cd :: _) =>
        let id := Bytes.from_bytes_big cd in
        match inflight (self w) !! id with
        | None => (Raise KeyError, w)
        | Some fut =>
            match json_loads (msg_payload m) with
            | LoadsError e => (Raise (DecoderError e), w)
            | Loaded v =>
                match futures w !! fut with
                | Some Pending => (Ok tt, resolved id fut v w)
                | _ => (Raise InvalidStateError, w)
                end
            end
        end
    end.
Proof.
  unfold _handle_response, correlation_data_of, bind, lift_opt, ret, raise.
  destruct (msg_properties m !! "correlation_data") as [[|cd vals]|]; cbn; try done.
  unfold inflight_getitem, bind, get, lift_opt, ret, raise; cbn.
  destruct (inflight (self w) !! Bytes.from_bytes_big cd) as [fut|] eqn:Hin; cbn; [|done].
  destruct (json_loads (msg_payload m)) as [v|e]; cbn; [|done].
  unfold set_result.
  destruct (futures w !! fut) as [[|v']|]; cbn; try done.
  unfold inflight_delitem, bind, get; cbn. rewrite Hin; cbn.
  unfold resolved, update, emit, with_inflight, with_futures; cbn.
  rewrite <- !app_assoc. reflexivity.
Qed.

End Equations.

(** ** Well-formedness is an invariant of the session *)

Section Invariant.
Variable json_loads : list Byte.byte -> loaded.
Variable json_dumps : json -> option string.

Lemma wf_init uuid pfx futs : wf (init uuid pfx futs).
Proof. split; cbn; intros; try done. Qed.

Lemma wf_with_request_id w :
  wf w -> wf (with_request_id (request_id (self w) + 1) w).
Proof.
  intros [Hc Hk Hp Hi]. split; cbn; [lia| |done|done].
  intros id fut Hin. destruct (Hk _ _ Hin). lia.
Qed.

Lemma wf_sent path payload retain cd w :
  wf w -> Bytes.to_bytes_big (request_id (self w)) 4 = Some cd ->
  wf (sent path payload retain cd w).
Proof.
  intros [Hc Hk Hp Hi] Hcd.
  assert (request_id (self w) < 2 ^ 32) as Hlt.
  { apply mk_is_Some, BytesFacts.to_bytes_is_Some in Hcd.
    change (256 ^ Z.of_nat 4) with (2 ^ 32) in Hcd. lia. }
  split; cbn.
  - lia.
  - intros id fut [[<- <-]|[Hne Hin]]%lookup_insert_Some; [lia|].
    destruct (Hk _ _ Hin). lia.
  - intros id fut [[<- <-]|[Hne Hin]]%lookup_insert_Some.
    + rewrite lookup_app_r by lia. by rewrite Nat.sub_diag.
    + apply lookup_app_l_Some. eauto.
  - intros id1 id2 fut [[<- <-]|[Hne1 Hin1]]%lookup_insert_Some
                        [[<- Hf]|[Hne2 Hin2]]%lookup_insert_Some; try done.
    + apply Hp, lookup_lt_Some in Hin2. lia.
    + apply Hp, lookup_lt_Some in Hin1. lia.
    + eauto.
Qed.

Lemma wf_resolved id fut v w :
  wf w -> inflight (self w) !! id = Some fut -> wf (resolved id fut v w).
Proof.
  intros [Hc Hk Hp Hi] Hin. split; cbn.
  - done.
  - intros id' fut' [Hne Hin']%lookup_delete_Some. eauto.
  - intros id' fut' [Hne Hin']%lookup_delete_Some.
    rewrite list_lookup_insert_ne; [eauto|].
    intros <-. apply Hne. eauto.
  - intros id1 id2 fut' [_ H1]%lookup_delete_Some [_ H2]%lookup_delete_Some.
    eauto.
Qed.

Lemma wf_command path value retain w :
  wf w -> wf (snd (command json_dumps path value retain w)).
Proof.
  intros Hw. rewrite command_eq. cbn zeta.
  destruct (inflight (self w) !! request_id (self w)); cbn;
    [by apply wf_with_request_id|].
  destruct (Bytes.to_bytes_big (request_id (self w)) 4) as [cd|] eqn:Hcd; cbn;
    [|by apply wf_with_request_id].
  destruct (json_dumps value); cbn; [|by apply wf_with_request_id].
  by apply wf_sent.
Qed.

Lemma wf_handle_response m w :
  wf w -> wf (snd (_handle_response json_loads m w)).
Proof.
  intros Hw. rewrite handle_response_eq.
  destruct (msg_properties m !! "correlation_data") as [[|cd vals]|]; cbn; try done.
  destruct (inflight (self w) !! Bytes.from_bytes_big cd) as [fut|] eqn:Hin;
    cbn; [|done].
  destruct (json_loads (msg_payload m)); cbn; [|done].
  destruct (futures w !! fut) as [[|?]|]; cbn; try done.
  by apply wf_resolved.
Qed.

Lemma wf_perform a w :
  wf w -> wf (perform json_loads json_dumps a w).
Proof.
  destruct a; unfold perform; [apply wf_command | apply wf_handle_response].
Qed.

Lemma reachable_wf w : reachable json_loads json_dumps w -> wf w.
Proof.
  induction 1 as [uuid pfx futs | a w _ IH]; [apply wf_init | by apply wf_perform].
Qed.

End Invariant.

(** ** The inbound handler *)

Lemma correlation_bytes_Some m cd :
  correlation_bytes m = Some cd <->
  exists rest, msg_properties m !! "correlation_data" = Some (cd :: rest).
Proof.
  unfold correlation_bytes.
  destruct (msg_properties m !! "correlation_data") as [[|cd' rest]|]; cbn.
  - split; [done|]. by intros [? ?].
  - split; [intros [= ->]; eauto | by intros [? [= -> _]]].
  - split; [done|]. by intros [? ?].
Qed.

Lemma correlation_bytes_None m :
  correlation_bytes m = None <->
  msg_properties m !! "correlation_data" = None \/
  msg_properties m !! "correlation_data" = Some [].
Proof.
  unfold correlation_bytes.
  destruct (msg_properties m !! "correlation_data") as [[|cd' rest]|]; cbn.
  - split; [by right | done].
  - split; [done | by intros [?|?]].
  - split; [by left | done].
Qed.

Section Handler.
Variable json_loads : list Byte.byte -> loaded.

(** The handler on a message whose correlation data is [cd]. *)
Lemma handle_response_carrying m w cd :
  correlation_bytes m = Some cd ->
  _handle_response json_loads m w =
    match inflight (self w) !! Bytes.from_bytes_big cd with
    | None => (Raise KeyError, w)
    | Some fut =>
        match json_loads (msg_payload m) with
        | LoadsError e => (Raise (DecoderError e), w)
        | Loaded v =>
            match futures w !! fut with
            | Some Pending => (Ok tt, resolved (Bytes.from_bytes_big cd) fut v w)
            | _ => (Raise InvalidStateError, w)
            end
        end
    end.
Proof.
  intros [rest Hp]%correlation_bytes_Some.
  rewrite handle_response_eq, Hp. reflexivity.
Qed.

(** C2, as the code has it: an inbound response whose correlation
    identifier is not a key of the in-flight registry makes the handler
    raise [KeyError] to the transport that called it.  Nothing is logged,
    no future is touched and the registry is unchanged: the state after
    the call is the state before it. *)
Theorem unknown_correlation_raises_KeyError m w cd :
  correlation_bytes m = Some cd ->
  inflight (self w) !! Bytes.from_bytes_big cd = None ->
  _handle_response json_loads m w = (Raise KeyError, w).
Proof.
  intros Hcd Hin. rewrite (handle_response_carrying _ _ _ Hcd), Hin. reflexivity.
Qed.

(** C4, as the code has it: without correlation metadata the handler
    raises [KeyError] (no such property) or [IndexError] (a property
    without a value) and leaves the state as it was.  The length of the
    correlation data is never checked: two messages with the same payload
    whose correlation data decode to the same integer are handled alike,
    whatever the lengths. *)
Theorem correlation_data_unchecked m w :
  (msg_properties m !! "correlation_data" = None ->
     _handle_response json_loads m w = (Raise KeyError, w)) /\
  (msg_properties m !! "correlation_data" = Some [] ->
     _handle_response json_loads m w = (Raise IndexError, w)) /\
  (forall m' cd cd',
     correlation_bytes m = Some cd -> correlation_bytes m' = Some cd' ->
     Bytes.from_bytes_big cd = Bytes.from_bytes_big cd' ->
     msg_payload m = msg_payload m' ->
     _handle_response json_loads m w = _handle_response json_loads m' w).
Proof.
  repeat split.
  - intros Hp. by rewrite handle_response_eq, Hp.
  - intros Hp. by rewrite handle_response_eq, Hp.
  - intros m' cd cd' Hcd Hcd' Heq Hpay.
    rewrite (handle_response_carrying _ _ _ Hcd),
            (handle_response_carrying _ _ _ Hcd'), Heq, Hpay.
    reflexivity.
Qed.

(** C6, as the code has it: when the identifier is registered and
    [json.loads] raises on the payload, the handler raises that same
    exception, whichever it is, to the transport that called it.  Nothing
    is logged; the registry entry stays and the future stays pending: the
    state after the call is the state before it. *)
Theorem undecodable_payload_raises m w cd fut e :
  correlation_bytes m = Some cd ->
  inflight (self w) !! Bytes.from_bytes_big cd = Some fut ->
  json_loads (msg_payload m) = LoadsError e ->
  _handle_response json_loads m w = (Raise (DecoderError e), w).
Proof.
  intros Hcd Hin Hdec.
  rewrite (handle_response_carrying _ _ _ Hcd), Hin, Hdec. reflexivity.
Qed.

(** A registered identifier with a decodable payload is resolved. *)
Lemma handle_response_registered m w cd fut v :
  wf w ->
  correlation_bytes m = Some cd ->
  inflight (self w) !! Bytes.from_bytes_big cd = Some fut ->
  json_loads (msg_payload m) = Loaded v ->
  _handle_response json_loads m w =
    (Ok tt, resolved (Bytes.from_bytes_big cd) fut v w).
Proof.
  intros Hw Hcd Hin Hdec.
  rewrite (handle_response_carrying _ _ _ Hcd), Hin, Hdec.
  by rewrite (wf_pending _ Hw _ _ Hin).
Qed.

(** A future that has a result keeps it: the handler only sets pending
    futures. *)
Lemma handle_response_keeps_result m w fut v :
  awaited fut w = Some v ->
  awaited fut (snd (_handle_response json_loads m w)) = Some v.
Proof.
  intros Ha. rewrite handle_response_eq.
  destruct (msg_properties m !! "correlation_data") as [[|cd vals]|]; cbn; try done.
  destruct (inflight (self w) !! Bytes.from_bytes_big cd) as [f|]; cbn; [|done].
  destruct (json_loads (msg_payload m)) as [v'|e]; cbn; [|done].
  destruct (futures w !! f) as [[|?]|] eqn:Hf; cbn; try done.
  unfold awaited in *; cbn.
  destruct (decide (f = fut)) as [->|Hne].
  - by rewrite Hf in Ha.
  - by rewrite list_lookup_insert_ne.
Qed.

Lemma deliver_keeps_result ms w fut v :
  awaited fut w = Some v ->
  awaited fut (snd (deliver json_loads ms w)) = Some v.
Proof.
  revert w. induction ms as [|m ms IH]; intros w Ha; [done|].
  cbn [deliver].
  pose proof (handle_response_keeps_result m w fut v Ha) as H1.
  destruct (_handle_response json_loads m w) as [r w1]; cbn in H1.
  specialize (IH w1 H1).
  destruct (deliver json_loads ms w1) as [rs w2]; cbn in *. done.
Qed.

End Handler.

(** ** Starting a command *)

Section Command.
Variable json_loads : list Byte.byte -> loaded.
Variable json_dumps : json -> option string.

Lemma allocate_eq w :
  allocate w =
    (Ok (request_id (self w)), with_request_id (request_id (self w) + 1) w).
Proof. reflexivity. Qed.

(** Whatever makes a command fail, it fails with the counter advanced and
    nothing else changed. *)
Lemma command_raise_frame path value retain w e w' :
  command json_dumps path value retain w = (Raise e, w') ->
  w' = with_request_id (request_id (self w) + 1) w.
Proof.
  rewrite command_eq. cbn zeta.
  destruct (inflight (self w) !! request_id (self w)); [by intros [= _ <-]|].
  destruct (Bytes.to_bytes_big (request_id (self w)) 4); [|by intros [= _ <-]].
  destruct (json_dumps value); [done | by intros [= _ <-]].
Qed.

Lemma command_ok path value retain w fut w' :
  command json_dumps path value retain w = (Ok fut, w') ->
  exists cd payload,
    inflight (self w) !! request_id (self w) = None /\
    Bytes.to_bytes_big (request_id (self w)) 4 = Some cd /\
    json_dumps value = Some payload /\
    fut = length (futures w) /\
    w' = sent path payload retain cd w.
Proof.
  rewrite command_eq. cbn zeta.
  destruct (inflight (self w) !! request_id (self w)); [done|].
  destruct (Bytes.to_bytes_big (request_id (self w)) 4) as [cd|]; [|done].
  destruct (json_dumps value) as [payload|]; [|done].
  intros [= <- <-]. by exists cd, payload.
Qed.

Lemma command_counter path value retain w :
  request_id (self (snd (command json_dumps path value retain w))) =
    request_id (self w) + 1.
Proof.
  rewrite command_eq. cbn zeta.
  destruct (inflight (self w) !! request_id (self w)); [done|].
  destruct (Bytes.to_bytes_big (request_id (self w)) 4); [|done].
  by destruct (json_dumps value).
Qed.

Lemma handle_response_counter m w :
  request_id (self (snd (_handle_response json_loads m w))) = request_id (self w).
Proof.
  rewrite handle_response_eq.
  destruct (msg_properties m !! "correlation_data") as [[|cd vals]|]; try done.
  cbn zeta. destruct (inflight (self w) !! Bytes.from_bytes_big cd) as [f|]; [|done].
  destruct (json_loads (msg_payload m)); [|done].
  by destruct (futures w !! f) as [[|?]|].
Qed.

(** C10: when the duplicate-identifier check fails, or the identifier
    does not fit in four bytes, the command raises before it registers or
    publishes anything; the counter stays advanced by one, and the
    registry, the session identity, the prefix, the futures and the trace
    are as before the call. *)
Theorem failed_command_keeps_counter_advanced path value retain w :
  is_Some (inflight (self w) !! request_id (self w)) \/
  Bytes.to_bytes_big (request_id (self w)) 4 = None ->
  exists e w',
    command json_dumps path value retain w = (Raise e, w') /\
    (e = AssertionError "Invalid ID encountered" \/ e = OverflowError) /\
    request_id (self w') = request_id (self w) + 1 /\
    inflight (self w') = inflight (self w) /\
    uuid_hex (self w') = uuid_hex (self w) /\
    prefix (self w') = prefix (self w) /\
    futures w' = futures w /\
    trace w' = trace w.
Proof.
  intros Hfail. rewrite command_eq. cbn zeta.
  destruct (inflight (self w) !! request_id (self w)) as [f|] eqn:Hin.
  - eexists _, _. split; [reflexivity|]. split; [by left|]. by cbn.
  - destruct Hfail as [[? ?]|Hov]; [done|]. rewrite Hov.
    eexists _, _. split; [reflexivity|]. split; [by right|]. by cbn.
Qed.

(** C3, as the code has it: in every state a session can reach the
    counter is a non-negative integer, 0 on a new session; allocation
    returns the counter as it is and adds one to it, without any
    wrap-around.  Only identifiers below 2^32 are ever registered: once
    the counter has reached 2^32 a command raises [OverflowError] when it
    encodes its identifier, and the counter keeps growing. *)
Theorem counter_never_wraps w :
  reachable json_loads json_dumps w ->
  (forall uuid pfx futs, request_id (self (init uuid pfx futs)) = 0) /\
  0 <= request_id (self w) /\
  allocate w =
    (Ok (request_id (self w)), with_request_id (request_id (self w) + 1) w) /\
  (forall id fut, inflight (self w) !! id = Some fut -> 0 <= id < 2 ^ 32) /\
  (forall path value retain,
     2 ^ 32 <= request_id (self w) ->
     command json_dumps path value retain w =
       (Raise OverflowError, with_request_id (request_id (self w) + 1) w)).
Proof.
  intros Hw%reachable_wf. destruct Hw as [Hc Hk Hp Hi].
  split; [done|]. split; [done|]. split; [reflexivity|]. split.
  - intros id fut Hin. destruct (Hk _ _ Hin). lia.
  - intros path value retain Hge. rewrite command_eq. cbn zeta.
    destruct (inflight (self w) !! request_id (self w)) as [f|] eqn:Hin.
    { destruct (Hk _ _ Hin). lia. }
    destruct (Bytes.to_bytes_big (request_id (self w)) 4) as [cd|] eqn:Hcd; [|done].
    apply mk_is_Some, BytesFacts.to_bytes_is_Some in Hcd.
    change (256 ^ Z.of_nat 4) with (2 ^ 32) in Hcd. lia.
Qed.

End Command.

(** ** Order of registration and publication *)

Section Ordering.
Variable json_dumps : json -> option string.

Lemma new_events_raise path value retain w e w' :
  command json_dumps path value retain w = (Raise e, w') ->
  new_events w w' = [].
Proof.
  intros ->%command_raise_frame. unfold new_events; cbn. apply drop_all.
Qed.

Lemma new_events_sent path payload retain cd w :
  new_events w (sent path payload retain cd w) =
    [EvLogInfo payload (prefix (self w) ++ "/settings/" ++ path);
     EvInflightSet (request_id (self w)) (length (futures w));
     EvPublish (mkPublication (prefix (self w) ++ "/settings/" ++ path)
                  payload 0 retain
                  (prefix (self w) ++ "/response/" ++ uuid_hex (self w)) cd)].
Proof. unfold new_events, sent; cbn. by rewrite drop_app_length. Qed.

(** C5: in every execution of [command], whatever is published was
    registered first: the publish event is preceded, in the events of
    that execution, by the insertion of the request's identifier with a
    fresh pending future, and the publication carries that identifier.
    An execution that raises publishes nothing; one that returns its
    future has published. *)
Theorem registered_before_published path value retain w :
  let w' := snd (command json_dumps path value retain w) in
  let id := request_id (self w) in
  trace w' = (trace w ++ new_events w w')%list /\
  (forall i p, new_events w w' !! i = Some (EvPublish p) ->
     exists j fut,
       (j < i)%nat /\
       new_events w w' !! j = Some (EvInflightSet id fut) /\
       Bytes.to_bytes_big id 4 = Some (pub_correlation_data p) /\
       futures w !! fut = None /\
       futures w' !! fut = Some Pending /\
       inflight (self w') !! id = Some fut) /\
  (forall fut, fst (command json_dumps path value retain w) = Ok fut <->
               exists p, EvPublish p ∈ new_events w w' /\ fut = length (futures w)).
Proof.
  cbn zeta.
  destruct (command json_dumps path value retain w) as [[fut|e] w'] eqn:Hc; cbn [fst snd].
  - destruct (command_ok _ _ _ _ _ _ _ Hc) as (cd & payload & Hnew & Hcd & _ & -> & ->).
    rewrite new_events_sent. split; [|split].
    + reflexivity.
    + intros [|[|[|i]]] p; cbn; try done. intros [= <-]; cbn.
      exists 1%nat, (length (futures w)). repeat split; try done.
      * lia.
      * apply lookup_ge_None. lia.
      * rewrite lookup_app_r by lia. by rewrite Nat.sub_diag.
      * apply lookup_insert_eq.
    + intros fut. split.
      * intros [= <-]. eexists. split; [|done].
        apply list_elem_of_lookup. by exists 2%nat.
      * intros (_ & _ & ->). done.
  - rewrite (new_events_raise _ _ _ _ _ _ Hc).
    pose proof (command_raise_frame _ _ _ _ _ _ _ Hc) as ->.
    split; [|split].
    + cbn. by rewrite app_nil_r.
    + intros i p. by rewrite lookup_nil.
    + intros fut. split; [done|]. intros (p & Hp & _). inversion Hp.
Qed.

End Ordering.

(** ** The identifiers of successive calls *)

Section Identifiers.
Variable json_loads : list Byte.byte -> loaded.
Variable json_dumps : json -> option string.

Lemma perform_counter a w :
  request_id (self (perform json_loads json_dumps a w)) =
    match a with
    | Call _ _ _ => request_id (self w) + 1
    | Recv _ => request_id (self w)
    end.
Proof.
  destruct a; unfold perform;
    [apply command_counter | apply handle_response_counter].
Qed.

(** The calls of a run are assigned the counter's successive values. *)
Lemma assigned_eq acts w :
  assigned json_loads json_dumps acts w =
    (fun i => request_id (self w) + Z.of_nat i) <$> seq 0 (calls acts).
Proof.
  revert w. induction acts as [|a acts IH]; intros w; [done|].
  cbn [assigned calls]. rewrite allocate_eq, IH, perform_counter.
  destruct a as [path value retain|m].
  - cbn [seq fmap list_fmap]. f_equal; [lia|].
    rewrite <- fmap_S_seq, <- list_fmap_compose.
    apply list_fmap_ext. intros _ i _. cbn. lia.
  - reflexivity.
Qed.

(** C7: on a newly constructed session the calls are assigned 0, 1, 2,
    ... in the order in which they are made, whatever inbound messages
    are handled in between and whether or not a call goes on to publish;
    and from any state the identifiers assigned to a sequence of calls
    are pairwise distinct. *)
Theorem identifiers_in_call_order uuid pfx futs acts w :
  assigned json_loads json_dumps acts (init uuid pfx futs) =
    Z.of_nat <$> seq 0 (calls acts) /\
  NoDup (assigned json_loads json_dumps acts w).
Proof.
  split.
  - rewrite assigned_eq. apply list_fmap_ext. intros _ i _. cbn. lia.
  - rewrite assigned_eq. apply NoDup_fmap_2; [|apply NoDup_seq].
    intros i j Hij. lia.
Qed.

End Identifiers.

(** ** Resolving registered requests *)

Section Resolution.
Variable json_loads : list Byte.byte -> loaded.
Variable json_dumps : json -> option string.

Lemma carried_id_Some m id :
  carried_id m = Some id <->
  exists cd, correlation_bytes m = Some cd /\ Bytes.from_bytes_big cd = id.
Proof.
  unfold carried_id. destruct (correlation_bytes m) as [cd|]; cbn.
  - split; [intros [= <-]; eauto | by intros (? & [= <-] & <-)].
  - split; [done | by intros (? & ? & _)].
Qed.

Lemma awaited_resolved id fut v w :
  futures w !! fut = Some Pending -> awaited fut (resolved id fut v w) = Some v.
Proof.
  intros Hp. unfold awaited, resolved; cbn.
  rewrite list_lookup_insert_eq; [done|]. by apply lookup_lt_Some in Hp.
Qed.

(** Responses for distinct registered identifiers, all decodable, in any
    order: none makes the handler raise, each identifier is removed, each
    future gets the payload that came with its own identifier. *)
Lemma deliver_registered ms ids w :
  wf w ->
  carried_id <$> ms = Some <$> ids ->
  NoDup ids ->
  (forall id, id ∈ ids -> is_Some (inflight (self w) !! id)) ->
  Forall (fun m => is_Loaded (json_loads (msg_payload m))) ms ->
  exists w',
    deliver json_loads ms w = (replicate (length ms) (Ok tt), w') /\
    wf w' /\
    (forall id, inflight (self w') !! id =
                if decide (id ∈ ids) then None else inflight (self w) !! id) /\
    (forall i m id fut,
       ms !! i = Some m -> ids !! i = Some id ->
       inflight (self w) !! id = Some fut ->
       awaited fut w' = loaded_value (json_loads (msg_payload m))).
Proof.
  revert ids w. induction ms as [|m ms IH]; intros ids w Hw Hids Hnd Hreg Hdec.
  - destruct ids; [|done]. exists w.
    split; [done|]. split; [done|]. split.
    + intros id. rewrite decide_False; [done|]. intros Hin. inversion Hin.
    + intros i m id fut Hm. by rewrite lookup_nil in Hm.
  - destruct ids as [|id ids]; [done|].
    cbn in Hids. injection Hids as Hid Hids.
    apply carried_id_Some in Hid as (cd & Hcd & <-).
    apply NoDup_cons in Hnd as [Hnotin Hnd].
    apply Forall_cons in Hdec as [[v Hv] Hdec].
    destruct (Hreg (Bytes.from_bytes_big cd)) as [fut Hfut]; [left|].
    pose proof (handle_response_registered json_loads m w cd fut v Hw Hcd Hfut Hv) as Hstep.
    pose proof (wf_resolved (Bytes.from_bytes_big cd) fut v w Hw Hfut) as Hw1.
    destruct (IH ids _ Hw1 Hids Hnd) as (w' & Hrun & Hw' & Hreg' & Hres); [|done|].
    { intros id Hin. cbn. rewrite lookup_delete_ne; [apply Hreg; by right|].
      intros <-. done. }
    exists w'. split; [|split; [done|split]].
    + cbn [deliver length replicate]. by rewrite Hstep, Hrun.
    + intros id. rewrite Hreg'. cbn.
      destruct (decide (id ∈ ids)) as [Hin|Hin];
        destruct (decide (id ∈ Bytes.from_bytes_big cd :: ids)) as [Hin'|Hin'].
      * done.
      * exfalso. apply Hin'. by right.
      * apply elem_of_cons in Hin' as [->|?]; [|done]. apply lookup_delete_eq.
      * apply lookup_delete_ne. intros <-. apply Hin'. left.
    + intros [|i] m' id' fut' Hm Hi Hf; cbn in Hm, Hi.
      * injection Hm as <-. injection Hi as <-.
        rewrite Hfut in Hf. injection Hf as <-. rewrite Hv.
        pose proof (deliver_keeps_result json_loads ms
                      (resolved (Bytes.from_bytes_big cd) fut v w) fut v) as Hk.
        rewrite Hrun in Hk. apply Hk, awaited_resolved.
        by apply (wf_pending _ Hw _ _ Hfut).
      * apply (Hres i m' id' fut' Hm Hi). cbn.
        rewrite lookup_delete_ne; [done|].
        intros <-. apply Hnotin. apply list_elem_of_lookup. eauto.
Qed.

(** C8: in a state the session can reach, a response for a registered
    identifier whose payload decodes completes the future with the
    decoded payload and removes exactly that entry; every other entry and
    every other future is as before.  So once a decodable response has
    been handled for every registered identifier, in any order, the
    registry is empty. *)
Theorem resolve_removes_its_entry m w cd fut v :
  reachable json_loads json_dumps w ->
  correlation_bytes m = Some cd ->
  inflight (self w) !! Bytes.from_bytes_big cd = Some fut ->
  json_loads (msg_payload m) = Loaded v ->
  exists w',
    _handle_response json_loads m w = (Ok tt, w') /\
    awaited fut w' = Some v /\
    inflight (self w') = delete (Bytes.from_bytes_big cd) (inflight (self w)) /\
    (forall f, f <> fut -> futures w' !! f = futures w !! f) /\
    (forall ms ids,
       carried_id <$> ms = Some <$> ids ->
       ids ≡ₚ (map_to_list (inflight (self w))).*1 ->
       Forall (fun m => is_Loaded (json_loads (msg_payload m))) ms ->
       size (inflight (self (snd (deliver json_loads ms w)))) = 0%nat).
Proof.
  intros Hw%reachable_wf Hcd Hfut Hv.
  exists (resolved (Bytes.from_bytes_big cd) fut v w). repeat split.
  - by apply handle_response_registered.
  - apply awaited_resolved. by apply (wf_pending _ Hw _ _ Hfut).
  - intros f Hne. cbn. by rewrite list_lookup_insert_ne.
  - intros ms ids Hids Hperm Hdec.
    destruct (deliver_registered ms ids w Hw Hids) as (w' & Hrun & _ & Hreg & _);
      [| |done|].
    + rewrite Hperm. apply NoDup_fst_map_to_list.
    + intros id. rewrite Hperm. intros [[id' f] [-> Hin]]%list_elem_of_fmap.
      apply elem_of_map_to_list in Hin. eauto.
    + rewrite Hrun. cbn. apply map_size_empty_iff, map_empty. intros id.
      rewrite Hreg. case_decide as Hin; [done|].
      destruct (inflight (self w) !! id) as [f|] eqn:Hf; [|done].
      exfalso. apply Hin. rewrite Hperm.
      apply list_elem_of_fmap. exists (id, f). split; [done|].
      by apply elem_of_map_to_list.
Qed.

End Resolution.

(** ** Concurrent commands and their responses *)

Section CrossTalk.
Variable json_loads : list Byte.byte -> loaded.
Variable json_dumps : json -> option string.

Lemma command_keeps_entry path value retain w id fut :
  inflight (self w) !! id = Some fut ->
  inflight (self (snd (command json_dumps path value retain w))) !! id = Some fut.
Proof.
  intros Hin. rewrite command_eq. cbn zeta.
  destruct (inflight (self w) !! request_id (self w)) eqn:Hnew; [done|].
  destruct (Bytes.to_bytes_big (request_id (self w)) 4); [|done].
  destruct (json_dumps value); [|done]. cbn.
  rewrite lookup_insert_ne; [done|]. intros Heq. congruence.
Qed.

Lemma issue_keeps_entry cs w id fut :
  inflight (self w) !! id = Some fut ->
  inflight (self (snd (issue json_dumps cs w))) !! id = Some fut.
Proof.
  revert w. induction cs as [|[[path value] retain] cs IH]; intros w Hin; [done|].
  cbn [issue].
  pose proof (command_keeps_entry path value retain w id fut Hin) as H1.
  destruct (command json_dumps path value retain w) as [r w1]; cbn in H1.
  specialize (IH w1 H1).
  by destruct (issue json_dumps cs w1) as [rs w2].
Qed.

Lemma wf_issue cs w : wf w -> wf (snd (issue json_dumps cs w)).
Proof.
  revert w. induction cs as [|[[path value] retain] cs IH]; intros w Hw; [done|].
  cbn [issue].
  pose proof (wf_command json_dumps path value retain w Hw) as H1.
  destruct (command json_dumps path value retain w) as [r w1]; cbn in H1.
  specialize (IH w1 H1).
  by destruct (issue json_dumps cs w1) as [rs w2].
Qed.

(** Commands that all return their future: the [i]-th one is registered
    under the counter's [i]-th value. *)
Lemma issue_ok cs w futs w' :
  issue json_dumps cs w = (Ok <$> futs, w') ->
  length futs = length cs /\
  forall i fut, futs !! i = Some fut ->
    inflight (self w') !! (request_id (self w) + Z.of_nat i) = Some fut.
Proof.
  revert w futs. induction cs as [|[[path value] retain] cs IH]; intros w futs.
  - cbn. intros [= Hf <-]. destruct futs; [|done]. split; [done|].
    intros i fut. by rewrite lookup_nil.
  - cbn [issue].
    destruct (command json_dumps path value retain w) as [r w1] eqn:Hc.
    destruct (issue json_dumps cs w1) as [rs w2] eqn:Hi.
    intros [= Hf <-]. destruct futs as [|fut0 futs]; [done|].
    cbn in Hf. injection Hf as -> ->.
    destruct (IH _ _ Hi) as [Hlen Hreg].
    split; [cbn; lia|].
    pose proof (command_counter json_dumps path value retain w) as Hcnt.
    rewrite Hc in Hcnt; cbn in Hcnt.
    intros [|i] fut; cbn.
    + intros [= <-]. rewrite Z.add_0_r.
      pose proof (issue_keeps_entry cs w1 (request_id (self w)) fut0) as Hk.
      rewrite Hi in Hk. apply Hk.
      apply command_ok in Hc as (cd & payload & _ & _ & _ & -> & ->).
      cbn. apply lookup_insert_eq.
    + intros Hfut. specialize (Hreg i fut Hfut). rewrite Hcnt in Hreg.
      by replace (request_id (self w) + Z.of_nat (S i))
        with (request_id (self w) + 1 + Z.of_nat i) by lia.
Qed.

(** C1: when N commands have been started on a session and each has
    registered its request, and the N responses arrive in any order, each
    carrying the four-byte identifier of one request and a payload that
    decodes, then no response makes the handler raise and every caller's
    future ends up with the decoded payload of the response that carries
    its own identifier. *)
Theorem no_cross_talk w0 cs futs w1 ms ids :
  reachable json_loads json_dumps w0 ->
  issue json_dumps cs w0 = (Ok <$> futs, w1) ->
  ids ≡ₚ (fun i => request_id (self w0) + Z.of_nat i) <$> seq 0 (length cs) ->
  Forall2 (fun m id => correlation_bytes m = Bytes.to_bytes_big id 4) ms ids ->
  Forall (fun m => is_Loaded (json_loads (msg_payload m))) ms ->
  exists w2,
    deliver json_loads ms w1 = (replicate (length cs) (Ok tt), w2) /\
    forall i fut, futs !! i = Some fut ->
      let id := request_id (self w0) + Z.of_nat i in
      inflight (self w1) !! id = Some fut /\
      (exists m, m ∈ ms /\ correlation_bytes m = Bytes.to_bytes_big id 4) /\
      (forall m, m ∈ ms -> correlation_bytes m = Bytes.to_bytes_big id 4 ->
                 awaited fut w2 = loaded_value (json_loads (msg_payload m))).
Proof.
  intros Hw0%reachable_wf Hissue Hperm Hcarry Hdec.
  destruct (issue_ok _ _ _ _ Hissue) as [Hlen Hreg].
  assert (wf w1) as Hw1.
  { pose proof (wf_issue cs w0 Hw0) as H. by rewrite Hissue in H. }
  assert (forall id, id ∈ ids -> exists fut cd,
            inflight (self w1) !! id = Some fut /\
            Bytes.to_bytes_big id 4 = Some cd) as Hids.
  { intros id. rewrite Hperm. intros [i [-> Hi]]%list_elem_of_fmap.
    apply elem_of_seq in Hi.
    destruct (lookup_lt_is_Some_2 futs i) as [fut Hfut]; [lia|].
    specialize (Hreg i fut Hfut).
    destruct (wf_key _ Hw1 _ _ Hreg) as [Hr1 Hr2].
    destruct (BytesFacts.to_bytes_is_Some (request_id (self w0) + Z.of_nat i) 4)
      as [_ [cd Hcd]].
    { change (256 ^ Z.of_nat 4) with (2 ^ 32). lia. }
    eauto. }
  assert (carried_id <$> ms = Some <$> ids) as Hcarried.
  { clear Hperm. induction Hcarry as [|m id ms ids Hm Hrest IH]; [done|].
    apply Forall_cons in Hdec as [_ Hdec].
    cbn. f_equal.
    - assert (id ∈ id :: ids) as Hhd by left.
      destruct (Hids id Hhd) as (fut & cd & _ & Hcd).
      unfold carried_id. rewrite Hm, Hcd. cbn. f_equal.
      by apply BytesFacts.from_to_bytes in Hcd.
    - apply IH; [done|]. intros id' Hin. apply Hids. by right. }
  assert (NoDup ids) as Hnd.
  { rewrite Hperm. apply NoDup_fmap_2; [|apply NoDup_seq]. intros i j ?. lia. }
  destruct (deliver_registered json_loads ms ids w1 Hw1 Hcarried Hnd)
    as (w2 & Hrun & _ & _ & Hres); [|done|].
  { intros id Hin. destruct (Hids id Hin) as (fut & _ & Hf & _). eauto. }
  exists w2. split.
  { rewrite Hrun. do 2 f_equal.
    rewrite (Forall2_length _ _ _ Hcarry), Hperm, length_fmap, length_seq. done. }
  intros i fut Hfut id. subst id.
  pose proof (Hreg i fut Hfut) as Hin.
  assert (request_id (self w0) + Z.of_nat i ∈ ids) as Hmem.
  { rewrite Hperm. apply list_elem_of_fmap. exists i. split; [done|].
    apply elem_of_seq. apply lookup_lt_Some in Hfut. lia. }
  split; [done|]. split.
  - apply list_elem_of_lookup in Hmem as [k Hk].
    destruct (Forall2_lookup_r _ _ _ _ _ Hcarry Hk) as (m & Hm & Hc).
    exists m. split; [|done]. apply list_elem_of_lookup. eauto.
  - intros m [k Hk]%list_elem_of_lookup Hc.
    destruct (Forall2_lookup_l _ _ _ _ _ Hcarry Hk) as (id' & Hk' & Hc').
    assert (id' = request_id (self w0) + Z.of_nat i) as ->.
    { destruct (Hids id') as (_ & cd & _ & Hcd).
      { apply list_elem_of_lookup. eauto. }
      rewrite Hc' in Hc. rewrite Hcd in Hc. symmetry in Hc.
      apply BytesFacts.from_to_bytes in Hc, Hcd. congruence. }
    by apply (Hres k m _ fut Hk Hk').
Qed.

End CrossTalk.

(** ** The command-line loop *)

Section CommandLine.
Variable json_loads : list Byte.byte -> loaded.
Variable json_loads_str : string -> loaded.
Variable json_dumps : json -> option string.
Variable device : publication -> list message.

Lemma published_app t1 t2 : published (t1 ++ t2) = (published t1 ++ published t2)%list.
Proof. apply omap_app. Qed.

Lemma published_sent path payload retain cd w :
  published (trace (sent path payload retain cd w)) =
    (published (trace w) ++
     [mkPublication (prefix (self w) ++ "/settings/" ++ path) payload 0 retain
        (prefix (self w) ++ "/response/" ++ uuid_hex (self w)) cd])%list.
Proof. unfold sent; cbn. by rewrite published_app. Qed.

(** The caller awaits a request that the device answers with one
    decodable message echoing the correlation data. *)
Lemma await_answered path payload retain cd w m response :
  Bytes.to_bytes_big (request_id (self w)) 4 = Some cd ->
  device (mkPublication (prefix (self w) ++ "/settings/" ++ path) payload 0 retain
            (prefix (self w) ++ "/response/" ++ uuid_hex (self w)) cd) = [m] ->
  correlation_bytes m = Some cd ->
  json_loads (msg_payload m) = Loaded response ->
  await json_loads device (length (futures w)) (sent path payload retain cd w) =
    (Some response,
     resolved (request_id (self w)) (length (futures w)) response
       (sent path payload retain cd w)).
Proof.
  intros Hcd Hdev Hm Hdec. unfold await.
  rewrite published_sent, last_snoc. cbn [from_option]. rewrite Hdev.
  cbn [deliver]. rewrite (handle_response_carrying _ _ _ _ Hm).
  rewrite (BytesFacts.from_to_bytes _ _ _ Hcd).
  assert (inflight (self (sent path payload retain cd w)) !! request_id (self w)
          = Some (length (futures w))) as -> by apply lookup_insert_eq.
  rewrite Hdec.
  assert (futures (sent path payload retain cd w) !! length (futures w)
          = Some Pending) as ->.
  { cbn. rewrite lookup_app_r by lia. by rewrite Nat.sub_diag. }
  cbn [snd]. f_equal. apply awaited_resolved.
  cbn. rewrite lookup_app_r by lia. by rewrite Nat.sub_diag.
Qed.



End CommandLine.

(** * The statements on concrete sessions *)

Module Concrete.
Import Scenario.
Import SampleCodec.

Lemma reachable_one_pending : reachable loads dumps one_pending.
Proof. unfold one_pending, fresh. apply reach_step, reach_init. Qed.

Lemma calls_replicate n path value retain :
  calls (replicate n (Call path value retain)) = n.
Proof. induction n as [|n IH]; cbn; [done | by rewrite IH]. Qed.

(** Two commands answered in reverse order: each future receives the
    status sent for its own identifier. *)
Lemma no_cross_talk_reversed :
  exists w2,
    deliver loads reversed two_pending = (replicate 2 (Ok tt), w2) /\
    forall i fut, [0; 1]%nat !! i = Some fut ->
      let id := request_id (self fresh) + Z.of_nat i in
      inflight (self two_pending) !! id = Some fut /\
      (exists m, m ∈ reversed /\ correlation_bytes m = Bytes.to_bytes_big id 4) /\
      (forall m, m ∈ reversed -> correlation_bytes m = Bytes.to_bytes_big id 4 ->
                 awaited fut w2 = loaded_value (loads (msg_payload m))).
Proof.
  apply (no_cross_talk loads dumps fresh two_commands [0; 1]%nat two_pending
           reversed [1; 0]).
  - apply reach_init.
  - vm_compute. reflexivity.
  - vm_compute. apply perm_swap.
  - repeat constructor.
  - repeat constructor; vm_compute; eauto.
Defined.

(** A response for identifier 7 when nothing is in flight. *)
Lemma unknown_correlation_on_fresh :
  _handle_response loads (response (correlated id7) (status "0")) fresh =
    (Raise KeyError, fresh).
Proof.
  apply (unknown_correlation_raises_KeyError loads _ fresh id7).
  - reflexivity.
  - vm_compute. reflexivity.
Defined.

(** C2 as stated fails: on a new session nothing is in flight, a
    response carrying identifier 7 is not discarded silently, the handler
    raises [KeyError]. *)
Lemma unknown_response_is_not_discarded :
  inflight (self fresh) !! 7 = None /\
  carried_id (response (correlated id7) (status "0")) = Some 7 /\
  fst (_handle_response loads (response (correlated id7) (status "0")) fresh)
    = Raise KeyError.
Proof. vm_compute. repeat split; reflexivity. Qed.

(** The counter of a session with one pending request. *)
Lemma counter_of_one_pending :
  (forall uuid pfx futs, request_id (self (init uuid pfx futs)) = 0) /\
  0 <= request_id (self one_pending) /\
  allocate one_pending =
    (Ok (request_id (self one_pending)),
     with_request_id (request_id (self one_pending) + 1) one_pending) /\
  (forall id fut, inflight (self one_pending) !! id = Some fut -> 0 <= id < 2 ^ 32) /\
  (forall path value retain,
     2 ^ 32 <= request_id (self one_pending) ->
     command dumps path value retain one_pending =
       (Raise OverflowError,
        with_request_id (request_id (self one_pending) + 1) one_pending)).
Proof.
  apply (counter_never_wraps loads dumps one_pending).
  unfold one_pending, fresh. apply reach_step, reach_init.
Defined.

Lemma assigned_replicate n i path value retain w :
  (i < n)%nat ->
  assigned loads dumps (replicate n (Call path value retain)) w !! i =
    Some (request_id (self w) + Z.of_nat i).
Proof.
  intros Hi. rewrite assigned_eq, calls_replicate, list_lookup_fmap.
  by rewrite lookup_seq_lt.
Qed.

(** C3 as stated fails: among 2^32 + 1 calls on a new session, the call
    after the one that is assigned 2^32 - 1 is assigned 2^32, not 0. *)
Lemma counter_passes_four_bytes :
  assigned loads dumps many_calls fresh !! Z.to_nat (2 ^ 32 - 1) = Some (2 ^ 32 - 1) /\
  assigned loads dumps many_calls fresh !! Z.to_nat (2 ^ 32) = Some (2 ^ 32) /\
  Bytes.to_bytes_big (2 ^ 32) 4 = None.
Proof.
  assert (Z.to_nat (2 ^ 32 - 1) < Z.to_nat (2 ^ 32 + 1))%nat as H1
    by (apply Z2Nat.inj_lt; lia).
  assert (Z.to_nat (2 ^ 32) < Z.to_nat (2 ^ 32 + 1))%nat as H2
    by (apply Z2Nat.inj_lt; lia).
  assert (Z.of_nat (Z.to_nat (2 ^ 32 - 1)) = 2 ^ 32 - 1) as E1
    by (apply Z2Nat.id; lia).
  assert (Z.of_nat (Z.to_nat (2 ^ 32)) = 2 ^ 32) as E2
    by (apply Z2Nat.id; lia).
  unfold many_calls, set_afe0.
  revert H1 H2 E1 E2.
  generalize (Z.to_nat (2 ^ 32 + 1)), (Z.to_nat (2 ^ 32 - 1)), (Z.to_nat (2 ^ 32)).
  intros n a b H1 H2 E1 E2.
  rewrite !assigned_replicate by done.
  change (request_id (self fresh)) with 0.
  rewrite E1, E2. repeat split.
Qed.

(** Messages without usable correlation metadata, and the same
    identifier sent on one byte and on four. *)
Lemma correlation_data_cases :
  _handle_response loads (response ∅ (status "0")) fresh = (Raise KeyError, fresh) /\
  _handle_response loads (response {[ "correlation_data" := [] ]} (status "0")) fresh
    = (Raise IndexError, fresh) /\
  _handle_response loads (response (correlated [Byte.x00]) (status "0")) one_pending
    = _handle_response loads (response (correlated id0) (status "0")) one_pending.
Proof.
  split; [|split].
  - apply (correlation_data_unchecked loads (response ∅ (status "0")) fresh).
    reflexivity.
  - apply (correlation_data_unchecked loads
             (response {[ "correlation_data" := [] ]} (status "0")) fresh).
    reflexivity.
  - apply (correlation_data_unchecked loads
             (response (correlated [Byte.x00]) (status "0")) one_pending)
      with (cd := [Byte.x00]) (cd' := id0); reflexivity.
Defined.

(** C4 as stated fails: correlation data of one byte is not rejected.
    With request 0 pending, a response whose correlation data is the
    single byte 0 completes that request's future and removes its
    entry. *)
Lemma short_correlation_data_is_routed :
  length [Byte.x00] <> 4%nat /\
  inflight (self one_pending) !! 0 = Some 0%nat /\
  awaited 0 one_pending = None /\
  fst (_handle_response loads (response (correlated [Byte.x00]) (status "0"))
         one_pending) = Ok tt /\
  inflight (self (snd (_handle_response loads
                         (response (correlated [Byte.x00]) (status "0"))
                         one_pending))) !! 0 = None /\
  awaited 0 (snd (_handle_response loads
                    (response (correlated [Byte.x00]) (status "0")) one_pending))
    = Some (JDict [("code", JInt 0)]).
Proof. vm_compute. repeat split; try reflexivity. discriminate. Qed.

(** The first command on a new session: the publication is the fourth
    event of the session, the registration the third. *)
Lemma first_command_registers_first :
  exists j fut,
    (j < 2)%nat /\
    new_events fresh one_pending !! j = Some (EvInflightSet 0 fut) /\
    Bytes.to_bytes_big 0 4 = Some id0 /\
    futures fresh !! fut = None /\
    futures one_pending !! fut = Some Pending /\
    inflight (self one_pending) !! 0 = Some fut.
Proof.
  destruct (registered_before_published dumps "afe/0" (JStr "G2") true fresh)
    as (_ & Hpub & _).
  apply (Hpub 2%nat (mkPublication "dt/dev/settings/afe/0" (quoted "G2") 0 true
                       ("dt/dev/response/" ++ session_id) id0)).
  vm_compute. reflexivity.
Defined.

(** A payload that is not text, for the pending request 0. *)
Lemma non_text_payload_raises :
  _handle_response loads ScenarioMore.not_text one_pending =
    (Raise (DecoderError UnicodeDecodeError), one_pending).
Proof.
  apply (undecodable_payload_raises loads _ one_pending id0 0%nat).
  - reflexivity.
  - vm_compute. reflexivity.
  - vm_compute. reflexivity.
Defined.

(** C6 as stated fails: the payload of the response to the pending
    request 0 is empty, which does not decode; the message is not
    discarded silently, the handler raises the decoder's error. *)
Lemma undecodable_response_is_not_discarded :
  inflight (self one_pending) !! 0 = Some 0%nat /\
  carried_id (response (correlated id0) EmptyString) = Some 0 /\
  loads (msg_payload (response (correlated id0) EmptyString))
    = LoadsError JSONDecodeError /\
  fst (_handle_response loads (response (correlated id0) EmptyString) one_pending)
    = Raise (DecoderError JSONDecodeError).
Proof. vm_compute. repeat split; reflexivity. Qed.

(** The pending request 0 answered with status 0. *)
Lemma pending_request_resolved :
  exists w',
    _handle_response loads (response (correlated id0) (status "0")) one_pending
      = (Ok tt, w') /\
    awaited 0 w' = Some (JDict [("code", JInt 0)]) /\
    inflight (self w') = delete (Bytes.from_bytes_big id0) (inflight (self one_pending)) /\
    (forall f, f <> 0%nat -> futures w' !! f = futures one_pending !! f) /\
    (forall ms ids,
       carried_id <$> ms = Some <$> ids ->
       ids ≡ₚ (map_to_list (inflight (self one_pending))).*1 ->
       Forall (fun m => is_Loaded (loads (msg_payload m))) ms ->
       size (inflight (self (snd (deliver loads ms one_pending)))) = 0%nat).
Proof.
  apply (resolve_removes_its_entry loads dumps
           (response (correlated id0) (status "0")) one_pending id0 0%nat).
  - unfold one_pending, fresh. apply reach_step, reach_init.
  - reflexivity.
  - vm_compute. reflexivity.
  - vm_compute. reflexivity.
Defined.



(** A command on a session whose counter has passed 2^32 - 1. *)
Lemma command_on_exhausted_counter :
  exists e w',
    command dumps "afe/0" (JStr "G2") true exhausted = (Raise e, w') /\
    (e = AssertionError "Invalid ID encountered" \/ e = OverflowError) /\
    request_id (self w') = request_id (self exhausted) + 1 /\
    inflight (self w') = inflight (self exhausted) /\
    uuid_hex (self w') = uuid_hex (self exhausted) /\
    prefix (self w') = prefix (self exhausted) /\
    futures w' = futures exhausted /\
    trace w' = trace exhausted.
Proof.
  apply (failed_command_keeps_counter_advanced dumps "afe/0" (JStr "G2") true
           exhausted).
  right. vm_compute. reflexivity.
Defined.

End Concrete.


(** * Further properties of the code *)

(** ** The byte codec, both ways *)

Module CodecFacts.
Import Bytes.

Lemma byte_of_Z_mod z : byte_of_Z (z mod 256) = byte_of_Z z.
Proof. unfold byte_of_Z. by rewrite Z.mod_mod. Qed.

Lemma byte_val_range b : 0 <= byte_val b < 256.
Proof.
  unfold byte_val. pose proof (Byte.to_N_bounded b). lia.
Qed.

Lemma byte_of_Z_val b : byte_of_Z (byte_val b) = b.
Proof.
  unfold byte_of_Z. rewrite Z.mod_small by apply byte_val_range.
  unfold byte_val. by rewrite N2Z.id, Byte.of_to_N.
Qed.

Lemma from_bytes_range bs :
  0 <= from_bytes_big bs < 256 ^ Z.of_nat (length bs).
Proof.
  induction bs as [|b bs IH] using rev_ind; [cbn; lia|].
  rewrite BytesFacts.from_bytes_snoc, length_app. cbn [length].
  rewrite Nat.add_1_r, Nat2Z.inj_succ, Z.pow_succ_r by lia.
  pose proof (byte_val_range b). nia.
Qed.

Lemma be_digits_from_bytes bs : be_digits (length bs) (from_bytes_big bs) = bs.
Proof.
  induction bs as [|b bs IH] using rev_ind; [done|].
  rewrite BytesFacts.from_bytes_snoc, length_app. cbn [length].
  rewrite Nat.add_1_r. cbn [be_digits].
  pose proof (byte_val_range b) as Hb.
  rewrite Z.div_add_l, (Z.div_small (byte_val b)), Z.add_0_r, IH by lia.
  f_equal. rewrite <- byte_of_Z_mod.
  rewrite Z.add_comm, Z.mod_add, Z.mod_small by lia.
  by rewrite byte_of_Z_val.
Qed.

(** X1: what [to_bytes] produces has the requested length and decodes back
    to the integer, so two integers with the same encoding are equal. *)
Theorem decode_encode n len bs :
  to_bytes_big n len = Some bs ->
  from_bytes_big bs = n /\ length bs = len /\
  (forall n', to_bytes_big n' len = Some bs -> n' = n).
Proof.
  intros Hbs. split; [by eapply BytesFacts.from_to_bytes|].
  split; [by eapply BytesFacts.to_bytes_length|].
  intros n' Hbs'.
  apply BytesFacts.from_to_bytes in Hbs, Hbs'. congruence.
Qed.

(** X2: every byte string decodes to a non-negative integer below
    256^length, and encoding that integer on the same length gives the
    byte string back. *)
Theorem encode_decode bs :
  0 <= from_bytes_big bs < 256 ^ Z.of_nat (length bs) /\
  to_bytes_big (from_bytes_big bs) (length bs) = Some bs.
Proof.
  split; [apply from_bytes_range|].
  unfold to_bytes_big. rewrite decide_True by apply from_bytes_range.
  by rewrite be_digits_from_bytes.
Qed.

(** X3: leading zero bytes do not change the decoded integer, so byte
    strings of different lengths decode to the same identifier. *)
Theorem leading_zeros_ignored k bs :
  from_bytes_big (replicate k Byte.x00 ++ bs) = from_bytes_big bs.
Proof.
  induction k as [|k IH]; [done|].
  cbn [replicate app]. unfold from_bytes_big in *. cbn [fold_left].
  exact IH.
Qed.

End CodecFacts.

(** ** What a call and a response change, and what they leave alone *)

Section SessionFacts.
Variable json_loads : list Byte.byte -> loaded.
Variable json_dumps : json -> option string.

Lemma handle_response_ok_inv m w w1 :
  _handle_response json_loads m w = (Ok tt, w1) ->
  exists cd fut v,
    correlation_bytes m = Some cd /\
    inflight (self w) !! Bytes.from_bytes_big cd = Some fut /\
    json_loads (msg_payload m) = Loaded v /\
    futures w !! fut = Some Pending /\
    w1 = resolved (Bytes.from_bytes_big cd) fut v w.
Proof.
  rewrite handle_response_eq.
  destruct (msg_properties m !! "correlation_data") as [[|cd vals]|] eqn:Hp;
    try done.
  cbn zeta.
  destruct (inflight (self w) !! Bytes.from_bytes_big cd) as [fut|] eqn:Hin; [|done].
  destruct (json_loads (msg_payload m)) as [v|e] eqn:Hv; [|done].
  destruct (futures w !! fut) as [[|?]|] eqn:Hf; try done.
  intros [= <-]. exists cd, fut, v. repeat split; try done.
  apply correlation_bytes_Some. eauto.
Qed.

Lemma handle_response_raise_inv m w e w1 :
  _handle_response json_loads m w = (Raise e, w1) -> w1 = w.
Proof.
  rewrite handle_response_eq.
  destruct (msg_properties m !! "correlation_data") as [[|cd vals]|];
    try by intros [= _ <-].
  cbn zeta.
  destruct (inflight (self w) !! Bytes.from_bytes_big cd) as [fut|];
    [|by intros [= _ <-]].
  destruct (json_loads (msg_payload m)) as [v|e']; [|by intros [= _ <-]].
  destruct (futures w !! fut) as [[|?]|]; try done; by intros [= _ <-].
Qed.

Lemma command_keeps_result path value retain w fut v :
  awaited fut w = Some v ->
  awaited fut (snd (command json_dumps path value retain w)) = Some v.
Proof.
  intros Ha. rewrite command_eq. cbn zeta.
  destruct (inflight (self w) !! request_id (self w)); [done|].
  destruct (Bytes.to_bytes_big (request_id (self w)) 4); [|done].
  destruct (json_dumps value); [|done].
  unfold awaited in *; cbn.
  destruct (futures w !! fut) as [st|] eqn:Hf; [|done].
  by rewrite (lookup_app_l_Some _ _ _ _ Hf).
Qed.

Lemma perform_keeps_result a w fut v :
  awaited fut w = Some v ->
  awaited fut (perform json_loads json_dumps a w) = Some v.
Proof.
  destruct a; unfold perform;
    [apply command_keeps_result | apply handle_response_keeps_result].
Qed.

Lemma run_snoc acts a w :
  run json_loads json_dumps (acts ++ [a]) w =
    perform json_loads json_dumps a (run json_loads json_dumps acts w).
Proof. unfold run. by rewrite foldl_snoc. Qed.

Lemma perform_identity a w :
  uuid_hex (self (perform json_loads json_dumps a w)) = uuid_hex (self w) /\
  prefix (self (perform json_loads json_dumps a w)) = prefix (self w).
Proof.
  destruct a as [path value retain|m]; unfold perform.
  - rewrite command_eq. cbn zeta.
    destruct (inflight (self w) !! request_id (self w)); [done|].
    destruct (Bytes.to_bytes_big (request_id (self w)) 4); [|done].
    by destruct (json_dumps value).
  - destruct (_handle_response json_loads m w) as [[[]|e] w1] eqn:Hh; cbn.
    + by apply handle_response_ok_inv in Hh as (cd & fut & v & _ & _ & _ & _ & ->).
    + by apply handle_response_raise_inv in Hh as ->.
Qed.

(** X4: a call answered by a response that echoes the correlation data of
    its publication: the handler returns, the caller's future holds the
    decoded payload, and the registry is what it was before the call. *)
Theorem command_then_echo path value retain w fut w1 p m v :
  command json_dumps path value retain w = (Ok fut, w1) ->
  last (published (trace w1)) = Some p ->
  correlation_bytes m = Some (pub_correlation_data p) ->
  json_loads (msg_payload m) = Loaded v ->
  exists w2,
    _handle_response json_loads m w1 = (Ok tt, w2) /\
    awaited fut w2 = Some v /\
    inflight (self w2) = inflight (self w) /\
    request_id (self w2) = request_id (self w) + 1.
Proof.
  intros (cd & payload & Hnew & Hcd & _ & -> & ->)%command_ok Hp Hm Hv.
  rewrite published_sent, last_snoc in Hp. injection Hp as <-.
  cbn [pub_correlation_data] in Hm.
  exists (resolved (request_id (self w)) (length (futures w)) v
            (sent path payload retain cd w)).
  assert (futures (sent path payload retain cd w) !! length (futures w)
          = Some Pending) as Hpend.
  { cbn. rewrite lookup_app_r by lia. by rewrite Nat.sub_diag. }
  split; [|split; [|split]].
  - rewrite (handle_response_carrying _ _ _ _ Hm).
    rewrite (BytesFacts.from_to_bytes _ _ _ Hcd).
    assert (inflight (self (sent path payload retain cd w)) !! request_id (self w)
            = Some (length (futures w))) as -> by apply lookup_insert_eq.
    by rewrite Hv, Hpend.
  - by apply awaited_resolved.
  - cbn. by rewrite delete_insert_eq, delete_id.
  - done.
Qed.

(** X5: a future that has a result keeps it through every later call and
    every later inbound message. *)
Theorem results_are_final acts w fut v :
  awaited fut w = Some v ->
  awaited fut (run json_loads json_dumps acts w) = Some v.
Proof.
  intros Ha. induction acts as [|a acts IH] using rev_ind; [done|].
  rewrite run_snoc. by apply perform_keeps_result.
Qed.

(** X6: a response that has been handled is not handled twice: the same
    message again makes the handler raise [KeyError] and changes
    nothing. *)
Theorem duplicate_response_raises m w w1 :
  _handle_response json_loads m w = (Ok tt, w1) ->
  _handle_response json_loads m w1 = (Raise KeyError, w1).
Proof.
  intros (cd & fut & v & Hcd & _ & _ & _ & ->)%handle_response_ok_inv.
  rewrite (handle_response_carrying _ _ _ _ Hcd). cbn.
  by rewrite lookup_delete_eq.
Qed.

(** X7: in a state the session can reach the handler never raises
    [InvalidStateError]; it returns exactly when the message has
    correlation data, the decoded identifier is registered and the payload
    decodes. *)
Theorem handle_response_outcome m w :
  reachable json_loads json_dumps w ->
  fst (_handle_response json_loads m w) <> Raise InvalidStateError /\
  (fst (_handle_response json_loads m w) = Ok tt <->
   exists cd fut v,
     correlation_bytes m = Some cd /\
     inflight (self w) !! Bytes.from_bytes_big cd = Some fut /\
     json_loads (msg_payload m) = Loaded v).
Proof.
  intros Hw%reachable_wf.
  destruct (correlation_bytes m) as [cd|] eqn:Hcd.
  - rewrite (handle_response_carrying _ _ _ _ Hcd).
    destruct (inflight (self w) !! Bytes.from_bytes_big cd) as [fut|] eqn:Hin.
    + destruct (json_loads (msg_payload m)) as [v|e] eqn:Hv.
      * rewrite (wf_pending _ Hw _ _ Hin). cbn. split; [done|].
        split; [|done]. intros _. by exists cd, fut, v.
      * cbn. split; [done|]. split; [done|]. by intros (? & ? & ? & _ & _ & ?).
    + cbn. split; [done|]. split; [done|].
      intros (cd' & ? & ? & [= <-] & ? & _). congruence.
  - split.
    + rewrite handle_response_eq.
      apply correlation_bytes_None in Hcd as [-> | ->]; done.
    + split; [|by intros (? & ? & ? & ? & _)].
      rewrite handle_response_eq.
      apply correlation_bytes_None in Hcd as [-> | ->]; done.
Qed.

(** X8: whatever the message, the handler leaves the counter, the session
    identity and the prefix alone, creates no future, publishes nothing
    and adds no registry entry; when it raises it has changed nothing. *)
Theorem handle_response_frame m w :
  let w' := snd (_handle_response json_loads m w) in
  request_id (self w') = request_id (self w) /\
  uuid_hex (self w') = uuid_hex (self w) /\
  prefix (self w') = prefix (self w) /\
  length (futures w') = length (futures w) /\
  published (trace w') = published (trace w) /\
  inflight (self w') ⊆ inflight (self w) /\
  (forall e, fst (_handle_response json_loads m w) = Raise e -> w' = w).
Proof.
  cbn zeta.
  destruct (_handle_response json_loads m w) as [[[]|e] w1] eqn:Hh; cbn [fst snd].
  - apply handle_response_ok_inv in Hh as (cd & fut & v & _ & _ & _ & _ & ->).
    cbn. repeat split; try done.
    + apply length_insert.
    + rewrite published_app. cbn. apply app_nil_r.
    + apply delete_subseteq.
  - apply handle_response_raise_inv in Hh as ->. by repeat split.
Qed.

(** X9: whatever its arguments, a call leaves the session identity and the
    prefix alone, keeps every registry entry, keeps every existing future as
    it is and adds at most one pending future, and publishes at most
    once. *)
Theorem command_frame path value retain w :
  let w' := snd (command json_dumps path value retain w) in
  uuid_hex (self w') = uuid_hex (self w) /\
  prefix (self w') = prefix (self w) /\
  inflight (self w) ⊆ inflight (self w') /\
  (futures w' = futures w \/ futures w' = (futures w ++ [Pending])%list) /\
  (exists ps, published (trace w') = (published (trace w) ++ ps)%list /\
              (length ps <= 1)%nat).
Proof.
  cbn zeta. rewrite command_eq. cbn zeta.
  destruct (inflight (self w) !! request_id (self w)) eqn:Hin.
  { cbn. do 3 (split; [done|]). split; [by left|].
    exists []. split; [by rewrite app_nil_r | cbn; lia]. }
  destruct (Bytes.to_bytes_big (request_id (self w)) 4) as [cd|].
  2:{ cbn. do 3 (split; [done|]). split; [by left|].
      exists []. split; [by rewrite app_nil_r | cbn; lia]. }
  destruct (json_dumps value) as [payload|].
  2:{ cbn. do 3 (split; [done|]). split; [by left|].
      exists []. split; [by rewrite app_nil_r | cbn; lia]. }
  cbn [snd]. split; [done|]. split; [done|]. split; [|split].
  - cbn. by apply insert_subseteq.
  - by right.
  - rewrite published_sent. eexists. split; [done|]. cbn. lia.
Qed.

(** X10: through any interleaving of calls and inbound messages the
    session identity and the prefix never change, and the counter has
    advanced by the number of calls, whether they published or raised. *)
Theorem run_identity_and_counter acts w :
  uuid_hex (self (run json_loads json_dumps acts w)) = uuid_hex (self w) /\
  prefix (self (run json_loads json_dumps acts w)) = prefix (self w) /\
  request_id (self (run json_loads json_dumps acts w)) =
    request_id (self w) + Z.of_nat (calls acts).
Proof.
  revert w. induction acts as [|a acts IH]; intros w.
  - cbn. repeat split. lia.
  - change (run json_loads json_dumps (a :: acts) w)
      with (run json_loads json_dumps acts (perform json_loads json_dumps a w)).
    destruct (IH (perform json_loads json_dumps a w)) as (-> & -> & ->).
    destruct (perform_identity a w) as [-> ->].
    rewrite perform_counter. repeat split.
    destruct a; cbn [calls]; lia.
Qed.


End SessionFacts.

(** ** What is on the wire in a reachable state *)

Section WireFacts.
Variable json_loads : list Byte.byte -> loaded.
Variable json_dumps : json -> option string.

(** The four things a call or an inbound message can do to the state. *)
Lemma perform_cases a w :
  perform json_loads json_dumps a w = w \/
  perform json_loads json_dumps a w = with_request_id (request_id (self w) + 1) w \/
  (exists path payload retain cd,
     inflight (self w) !! request_id (self w) = None /\
     Bytes.to_bytes_big (request_id (self w)) 4 = Some cd /\
     perform json_loads json_dumps a w = sent path payload retain cd w) \/
  (exists id fut v,
     inflight (self w) !! id = Some fut /\
     futures w !! fut = Some Pending /\
     perform json_loads json_dumps a w = resolved id fut v w).
Proof.
  destruct a as [path value retain|m]; unfold perform.
  - rewrite command_eq. cbn zeta.
    destruct (inflight (self w) !! request_id (self w)) eqn:Hin; [by right; left|].
    destruct (Bytes.to_bytes_big (request_id (self w)) 4) as [cd|] eqn:Hcd;
      [|by right; left].
    destruct (json_dumps value) as [payload|]; [|by right; left].
    right; right; left. by exists path, payload, retain, cd.
  - destruct (_handle_response json_loads m w) as [[[]|e] w1] eqn:Hh; cbn.
    + apply handle_response_ok_inv in Hh as (cd & fut & v & _ & Hin & _ & Hf & ->).
      right; right; right. by exists (Bytes.from_bytes_big cd), fut, v.
    + apply handle_response_raise_inv in Hh as ->. by left.
Qed.

Lemma reachable_subscribed w :
  reachable json_loads json_dumps w ->
  EvSubscribe (prefix (self w) ++ "/response/" ++ uuid_hex (self w)) ∈ trace w.
Proof.
  induction 1 as [uuid pfx futs | a w _ IH]; [cbn; left|].
  destruct (perform_cases a w)
    as [-> | [-> | [(path & payload & retain & cd & _ & _ & ->)
                   | (id & fut & v & _ & _ & ->)]]];
    cbn; try done; apply elem_of_app; by left.
Qed.

(** X12: every publication of a session names, as the topic to respond
    on, the topic the session subscribed to when it was constructed, and is
    sent with quality of service 0. *)
Theorem publications_name_the_subscription w p :
  reachable json_loads json_dumps w ->
  p ∈ published (trace w) ->
  pub_response_topic p = prefix (self w) ++ "/response/" ++ uuid_hex (self w) /\
  pub_qos p = 0 /\
  EvSubscribe (pub_response_topic p) ∈ trace w.
Proof.
  intros Hw Hp.
  enough (pub_response_topic p = prefix (self w) ++ "/response/" ++ uuid_hex (self w)
          /\ pub_qos p = 0) as [Ht Hq].
  { split; [done|]. split; [done|]. rewrite Ht. by apply reachable_subscribed. }
  induction Hw as [uuid pfx futs | a w _ IH]; [inversion Hp|].
  destruct (perform_cases a w)
    as [Hs | [Hs | [(path & payload & retain & cd & _ & _ & Hs)
                   | (id & fut & v & _ & _ & Hs)]]];
    rewrite Hs in Hp |- *.
  - by apply IH.
  - by apply IH.
  - rewrite published_sent in Hp. apply elem_of_app in Hp as [Hp|Hp].
    + by apply IH.
    + apply list_elem_of_singleton in Hp as ->. done.
  - cbn in Hp |- *. rewrite published_app in Hp. cbn in Hp.
    rewrite app_nil_r in Hp. by apply IH.
Qed.

Lemma published_below_counter w p :
  reachable json_loads json_dumps w ->
  p ∈ published (trace w) ->
  Bytes.to_bytes_big (Bytes.from_bytes_big (pub_correlation_data p)) 4
    = Some (pub_correlation_data p) /\
  Bytes.from_bytes_big (pub_correlation_data p) < request_id (self w).
Proof.
  intros Hw Hp.
  induction Hw as [uuid pfx futs | a w _ IH]; [inversion Hp|].
  destruct (perform_cases a w)
    as [Hs | [Hs | [(path & payload & retain & cd & _ & Hcd & Hs)
                   | (id & fut & v & _ & _ & Hs)]]];
    rewrite Hs in Hp |- *.
  - by apply IH.
  - destruct (IH Hp). split; [done|]. cbn. lia.
  - rewrite published_sent in Hp. apply elem_of_app in Hp as [Hp|Hp].
    + destruct (IH Hp). split; [done|]. cbn. lia.
    + apply list_elem_of_singleton in Hp as ->.
      unfold sent. cbn [pub_correlation_data self request_id].
      rewrite (BytesFacts.from_to_bytes _ _ _ Hcd). split; [done|lia].
  - cbn in Hp |- *. rewrite published_app in Hp. cbn in Hp.
    rewrite app_nil_r in Hp. by apply IH.
Qed.

(** X13: no two publications of a session carry the same correlation
    data; each carries the four-byte encoding of an identifier the counter
    has already passed. *)
Theorem correlation_data_never_reused w :
  reachable json_loads json_dumps w ->
  NoDup (pub_correlation_data <$> published (trace w)) /\
  (forall p, p ∈ published (trace w) ->
     length (pub_correlation_data p) = 4%nat /\
     0 <= Bytes.from_bytes_big (pub_correlation_data p) < request_id (self w)).
Proof.
  intros Hw. split.
  - induction Hw as [uuid pfx futs | a w Hw IH]; [cbn; constructor|].
    destruct (perform_cases a w)
      as [Hs | [Hs | [(path & payload & retain & cd & _ & Hcd & Hs)
                     | (id & fut & v & _ & _ & Hs)]]];
      rewrite Hs.
    + done.
    + done.
    + rewrite published_sent, fmap_app. cbn.
      apply NoDup_app. split; [done|]. split; [|apply NoDup_singleton].
      intros cd' [p [-> Hp]]%list_elem_of_fmap Hin.
      apply list_elem_of_singleton in Hin.
      destruct (published_below_counter w p Hw Hp) as [_ Hlt].
      rewrite Hin, (BytesFacts.from_to_bytes _ _ _ Hcd) in Hlt. lia.
    + cbn. rewrite published_app. cbn. by rewrite app_nil_r.
  - intros p Hp. destruct (published_below_counter w p Hw Hp) as [Henc Hlt].
    split; [by apply BytesFacts.to_bytes_length in Henc|].
    split; [|done]. apply CodecFacts.from_bytes_range.
Qed.

(** X14: in a state the session can reach, every registered request has
    been published with the four-byte encoding of its identifier, and its
    future has no result yet. *)
Theorem registered_requests_are_published w id fut :
  reachable json_loads json_dumps w ->
  inflight (self w) !! id = Some fut ->
  awaited fut w = None /\
  exists p, p ∈ published (trace w) /\
            Bytes.to_bytes_big id 4 = Some (pub_correlation_data p).
Proof.
  intros Hw Hin. split.
  { apply reachable_wf in Hw. unfold awaited.
    by rewrite (wf_pending _ Hw _ _ Hin). }
  revert id fut Hin.
  induction Hw as [uuid pfx futs | a w _ IH]; intros id fut Hin; [done|].
  destruct (perform_cases a w)
    as [Hs | [Hs | [(path & payload & retain & cd & _ & Hcd & Hs)
                   | (id' & fut' & v & _ & _ & Hs)]]];
    rewrite Hs in Hin |- *.
  - by eapply IH.
  - by eapply IH.
  - rewrite published_sent. cbn in Hin.
    apply lookup_insert_Some in Hin as [[<- _]|[_ Hin]].
    + eexists. split; [apply elem_of_app; right; by left|]. done.
    + destruct (IH _ _ Hin) as (p & Hp & Henc).
      exists p. split; [apply elem_of_app; by left | done].
  - cbn in Hin |- *. apply lookup_delete_Some in Hin as [_ Hin].
    rewrite published_app. cbn. rewrite app_nil_r. by eapply IH.
Qed.

Lemma resolutions_app t1 t2 :
  resolutions (t1 ++ t2) = (resolutions t1 + resolutions t2)%nat.
Proof. unfold resolutions. by rewrite omap_app, length_app. Qed.

Lemma resolutions_sent path payload retain cd w :
  resolutions (trace (sent path payload retain cd w)) = resolutions (trace w).
Proof. unfold sent; cbn [trace]. rewrite resolutions_app. cbn. lia. Qed.

Lemma resolutions_resolved id fut v w :
  resolutions (trace (resolved id fut v w)) = S (resolutions (trace w)).
Proof. unfold resolved; cbn [trace]. rewrite resolutions_app. cbn. lia. Qed.

Lemma published_resolved id fut v w :
  published (trace (resolved id fut v w)) = published (trace w).
Proof. unfold resolved; cbn [trace]. rewrite published_app. cbn. apply app_nil_r. Qed.

(** X15: on a session constructed and then used in any way, the number of
    requests in the registry is the number of publications minus the
    number of futures that have been given a result. *)
Theorem registry_accounting w :
  reachable json_loads json_dumps w ->
  (size (inflight (self w)) + resolutions (trace w))%nat
    = length (published (trace w)).
Proof.
  induction 1 as [uuid pfx futs | a w _ IH]; [done|].
  destruct (perform_cases a w)
    as [Hs | [Hs | [(path & payload & retain & cd & Hnew & _ & Hs)
                   | (id & fut & v & Hin & _ & Hs)]]];
    rewrite Hs.
  - done.
  - done.
  - rewrite published_sent, length_app, resolutions_sent.
    unfold sent; cbn [self inflight length].
    rewrite (map_size_insert_None _ _ _ Hnew). lia.
  - rewrite published_resolved, resolutions_resolved, <- IH.
    unfold resolved; cbn [self inflight].
    rewrite <- (insert_delete_id (inflight (self w)) id fut Hin) at 2.
    rewrite map_size_insert_None by apply lookup_delete_eq. lia.
Qed.

End WireFacts.

(** ** The settings arguments and the ways the loop stops *)

Lemma split_eq1_without s : contains_eq s = false -> split_eq1 s = [s].
Proof.
  induction s as [|c rest IH]; [done|]. cbn.
  destruct (Ascii.eqb c "="); [done|]. cbn. intros Hr. by rewrite (IH Hr).
Qed.

Lemma split_eq1_with s :
  contains_eq s = true ->
  exists k v, split_eq1 s = [k; v] /\ contains_eq k = false /\
              s = k ++ String "="%char v.
Proof.
  induction s as [|c rest IH]; [done|]. cbn.
  destruct (Ascii.eqb c "=") eqn:Hc.
  - intros _. apply Ascii.eqb_eq in Hc as ->. by exists EmptyString, rest.
  - cbn. intros Hr. destruct (IH Hr) as (k & v & -> & Hk & ->).
    exists (String c k), v. cbn. by rewrite Hc, Hk.
Qed.

(** X16: [split("=", 1)] cuts at the first "=" only: an argument with an
    "=" gives a key without "=" and the rest, an argument without one
    comes back whole, and joining the parts with "=" gives the argument
    back. *)
Theorem split_eq1_parts s :
  String.concat "=" (split_eq1 s) = s /\
  (contains_eq s = true ->
     exists k v, split_eq1 s = [k; v] /\ contains_eq k = false) /\
  (contains_eq s = false -> split_eq1 s = [s]).
Proof.
  split; [|split].
  - destruct (contains_eq s) eqn:Hs.
    + destruct (split_eq1_with s Hs) as (k & v & -> & _ & ->). done.
    + by rewrite (split_eq1_without s Hs).
  - intros Hs. destruct (split_eq1_with s Hs) as (k & v & ? & ? & _). eauto.
  - apply split_eq1_without.
Qed.

Section LoopFacts.
Variable json_loads : list Byte.byte -> loaded.
Variable json_loads_str : string -> loaded.
Variable json_dumps : json -> option string.
Variable device : publication -> list message.

(** X17: a settings argument without "=" stops the run with the
    [ValueError] of the unpacking, and one whose value [json.loads]
    rejects stops it with the exception [json.loads] raised; either way
    nothing is registered or published for it, the state is unchanged and
    the settings after it are not looked at. *)
Theorem malformed_argument_stops no_retain key_value rest w :
  (contains_eq key_value = false ->
     configure_loop json_loads json_loads_str json_dumps device no_retain
       (key_value :: rest) w = (Uncaught ValueError, w)) /\
  (forall path value e,
     split_eq1 key_value = [path; value] ->
     json_loads_str value = LoadsError e ->
     configure_loop json_loads json_loads_str json_dumps device no_retain
       (key_value :: rest) w = (Uncaught (DecoderError e), w)).
Proof.
  split.
  - intros Hno. cbn [configure_loop]. by rewrite (split_eq1_without _ Hno).
  - intros path value e Hsplit Hv. cbn [configure_loop]. by rewrite Hsplit, Hv.
Qed.

(** X18: when nothing arrives for a request, the caller is never resumed:
    the run stops at that setting, with the request still registered and
    its future pending, and the settings after it are not sent. *)
Theorem unanswered_request_blocks no_retain key_value rest w path value v fut w1 :
  split_eq1 key_value = [path; value] ->
  json_loads_str value = Loaded v ->
  command json_dumps path v (negb no_retain) w = (Ok fut, w1) ->
  (forall p, last (published (trace w1)) = Some p -> device p = []) ->
  configure_loop json_loads json_loads_str json_dumps device no_retain (key_value :: rest) w
    = (Blocked, w1) /\
  inflight (self w1) !! request_id (self w) = Some fut /\
  awaited fut w1 = None.
Proof.
  intros Hsplit Hv Hc Hdev.
  assert (awaited fut w1 = None /\
          inflight (self w1) !! request_id (self w) = Some fut) as [Hpend Hin].
  { apply command_ok in Hc as (cd & payload & _ & _ & _ & -> & ->).
    split; [|apply lookup_insert_eq].
    unfold awaited; cbn. rewrite lookup_app_r by lia. by rewrite Nat.sub_diag. }
  split; [|done].
  cbn [configure_loop]. rewrite Hsplit, Hv, Hc. unfold await.
  destruct (last (published (trace w1))) as [p|] eqn:Hlast; cbn [from_option].
  - rewrite (Hdev p eq_refl). cbn. by rewrite Hpend.
  - cbn. by rewrite Hpend.
Qed.

(** X19: when the response to a setting decodes but has no ["code"] to
    look up, the response is printed, then the lookup raises ([KeyError]
    for an object without the key, [TypeError] for a value that is not an
    object) and the run stops; the request has been resolved and removed
    from the registry. *)
Theorem response_without_status no_retain key_value rest w path value v fut w1
    p m response e :
  split_eq1 key_value = [path; value] ->
  json_loads_str value = Loaded v ->
  command json_dumps path v (negb no_retain) w = (Ok fut, w1) ->
  last (published (trace w1)) = Some p ->
  device p = [m] ->
  correlation_bytes m = Some (pub_correlation_data p) ->
  json_loads (msg_payload m) = Loaded response ->
  getitem response "code" = Raise e ->
  exists w',
    configure_loop json_loads json_loads_str json_dumps device no_retain (key_value :: rest) w
      = (Uncaught e, w') /\
    (e = KeyError \/ e = TypeError) /\
    last (trace w') = Some (EvPrint path response) /\
    awaited fut w' = Some response /\
    inflight (self w') = inflight (self w).
Proof.
  intros Hsplit Hv Hc Hlast Hdev Hm Hdec Hcode.
  pose proof Hc as (cd & payload & Hnew & Hcd & _ & -> & ->)%command_ok.
  rewrite published_sent, last_snoc in Hlast. injection Hlast as <-.
  cbn [pub_correlation_data] in Hm.
  eexists. split; [|split; [|split; [|split]]].
  - cbn [configure_loop]. rewrite Hsplit, Hv, Hc.
    rewrite (await_answered json_loads device _ _ _ _ _ _ _ Hcd Hdev Hm Hdec).
    rewrite Hcode. reflexivity.
  - destruct response; cbn in Hcode; try (injection Hcode as <-; by right).
    destruct (dict_get "code" d); [done|]. injection Hcode as <-. by left.
  - cbn. apply last_snoc.
  - unfold awaited; cbn. rewrite list_lookup_insert_eq; [done|].
    rewrite length_app; cbn; lia.
  - cbn. by rewrite delete_insert_eq, delete_id.
Qed.

End LoopFacts.

(** ** Independent futures *)

Section Futures.
Variable json_dumps : json -> option string.

(** X20: calls started one after the other and all registered have
    different futures, none of which existed before: they are the next
    free handles of the loop, in call order. *)
Theorem futures_are_fresh cs w futs w' :
  issue json_dumps cs w = (Ok <$> futs, w') ->
  futs = seq (length (futures w)) (length cs) /\
  NoDup futs /\
  length (futures w') = (length (futures w) + length cs)%nat.
Proof.
  intros Hissue.
  enough (futs = seq (length (futures w)) (length cs) /\
          length (futures w') = (length (futures w) + length cs)%nat) as [-> Hl].
  { split; [done|]. split; [apply NoDup_seq | done]. }
  revert w futs Hissue.
  induction cs as [|[[path value] retain] cs IH]; intros w futs.
  - cbn. intros [= Hf <-]. destruct futs; [|done]. split; [done | lia].
  - cbn [issue].
    destruct (command json_dumps path value retain w) as [r w1] eqn:Hc.
    destruct (issue json_dumps cs w1) as [rs w2] eqn:Hi.
    intros [= Hf <-]. destruct futs as [|fut0 futs]; [done|].
    cbn in Hf. injection Hf as -> ->.
    destruct (IH _ _ Hi) as [-> Hlen].
    apply command_ok in Hc as (cd & payload & _ & _ & _ & -> & ->).
    rewrite Hlen. cbn [sent futures length seq]. rewrite length_app. cbn [length].
    rewrite Nat.add_1_r. split; [done | lia].
Qed.

End Futures.

(** * The further properties on concrete sessions *)

Module ConcreteMore.
Import Scenario.
Import ScenarioMore.
Import SampleCodec.

Lemma decode_encode_258 :
  Bytes.from_bytes_big [Byte.x00; Byte.x00; Byte.x01; Byte.x02] = 258 /\
  length [Byte.x00; Byte.x00; Byte.x01; Byte.x02] = 4%nat /\
  (forall n', Bytes.to_bytes_big n' 4 = Some [Byte.x00; Byte.x00; Byte.x01; Byte.x02]
              -> n' = 258).
Proof. apply (CodecFacts.decode_encode 258 4). reflexivity. Defined.

Lemma first_command_echoed :
  exists w2,
    _handle_response loads (response (correlated id0) (status "0")) one_pending
      = (Ok tt, w2) /\
    awaited 0 w2 = Some (JDict [("code", JInt 0)]) /\
    inflight (self w2) = inflight (self fresh) /\
    request_id (self w2) = request_id (self fresh) + 1.
Proof.
  apply (command_then_echo loads dumps "afe/0" (JStr "G2") true fresh 0%nat
           one_pending first_publication).
  - vm_compute. reflexivity.
  - vm_compute. reflexivity.
  - reflexivity.
  - vm_compute. reflexivity.
Defined.

Lemma answered_result_is_kept :
  awaited 0 (run loads dumps later answered) = Some (JDict [("code", JInt 0)]).
Proof.
  apply (results_are_final loads dumps later answered 0%nat).
  vm_compute. reflexivity.
Defined.

Lemma second_delivery_raises :
  _handle_response loads (response (correlated id0) (status "0")) answered
    = (Raise KeyError, answered).
Proof.
  apply (duplicate_response_raises loads _ one_pending answered).
  vm_compute. reflexivity.
Defined.

Lemma outcome_on_one_pending :
  fst (_handle_response loads (response (correlated id0) (status "0")) one_pending)
    <> Raise InvalidStateError /\
  (fst (_handle_response loads (response (correlated id0) (status "0")) one_pending)
     = Ok tt <->
   exists cd fut v,
     correlation_bytes (response (correlated id0) (status "0")) = Some cd /\
     inflight (self one_pending) !! Bytes.from_bytes_big cd = Some fut /\
     loads (msg_payload (response (correlated id0) (status "0"))) = Loaded v).
Proof.
  apply (handle_response_outcome loads dumps).
  unfold one_pending, fresh. apply reach_step, reach_init.
Defined.


Lemma first_publication_names_subscription :
  pub_response_topic first_publication =
    prefix (self one_pending) ++ "/response/" ++ uuid_hex (self one_pending) /\
  pub_qos first_publication = 0 /\
  EvSubscribe (pub_response_topic first_publication) ∈ trace one_pending.
Proof.
  apply (publications_name_the_subscription loads dumps).
  - unfold one_pending, fresh. apply reach_step, reach_init.
  - apply list_elem_of_lookup. exists 0%nat. vm_compute. reflexivity.
Defined.

Lemma correlation_data_of_one_pending :
  NoDup (pub_correlation_data <$> published (trace one_pending)) /\
  (forall p, p ∈ published (trace one_pending) ->
     length (pub_correlation_data p) = 4%nat /\
     0 <= Bytes.from_bytes_big (pub_correlation_data p)
       < request_id (self one_pending)).
Proof.
  apply (correlation_data_never_reused loads dumps).
  unfold one_pending, fresh. apply reach_step, reach_init.
Defined.

Lemma pending_request_was_published :
  awaited 0 one_pending = None /\
  exists p, p ∈ published (trace one_pending) /\
            Bytes.to_bytes_big 0 4 = Some (pub_correlation_data p).
Proof.
  apply (registered_requests_are_published loads dumps one_pending 0 0%nat).
  - unfold one_pending, fresh. apply reach_step, reach_init.
  - vm_compute. reflexivity.
Defined.

Lemma accounting_of_one_pending :
  (size (inflight (self one_pending)) + resolutions (trace one_pending))%nat
    = length (published (trace one_pending)).
Proof.
  apply (registry_accounting loads dumps).
  unfold one_pending, fresh. apply reach_step, reach_init.
Defined.

Lemma split_two_equals :
  String.concat "=" (split_eq1 "afe/0=1=2") = "afe/0=1=2" /\
  exists k v, split_eq1 "afe/0=1=2" = [k; v] /\ contains_eq k = false.
Proof.
  destruct (split_eq1_parts "afe/0=1=2") as (Hjoin & Hwith & _).
  split; [exact Hjoin | apply Hwith; reflexivity].
Defined.

Lemma malformed_arguments :
  configure_loop loads loads_str dumps device false ["afe"; "afe/1=2"] fresh
    = (Uncaught ValueError, fresh) /\
  configure_loop loads loads_str dumps device false ["afe/0={"; "afe/1=2"] fresh
    = (Uncaught (DecoderError JSONDecodeError), fresh).
Proof.
  split.
  - apply (malformed_argument_stops loads loads_str dumps device false "afe"
             ["afe/1=2"] fresh).
    reflexivity.
  - apply (malformed_argument_stops loads loads_str dumps device false "afe/0={"
             ["afe/1=2"] fresh) with (path := "afe/0") (value := "{").
    + reflexivity.
    + vm_compute. reflexivity.
Defined.

Lemma silent_device_blocks :
  configure_loop loads loads_str dumps silent false ["afe/0=1"; "afe/1=2"] fresh
    = (Blocked, sent_one) /\
  inflight (self sent_one) !! request_id (self fresh) = Some 0%nat /\
  awaited 0 sent_one = None.
Proof.
  apply (unanswered_request_blocks loads loads_str dumps silent false "afe/0=1" ["afe/1=2"]
           fresh "afe/0" "1" (JInt 1)).
  - reflexivity.
  - vm_compute. reflexivity.
  - vm_compute. reflexivity.
  - intros p _. reflexivity.
Defined.

Lemma statusless_response_raises :
  exists w',
    configure_loop loads loads_str dumps statusless false ["afe/0=1"; "afe/1=2"] fresh
      = (Uncaught KeyError, w') /\
    (KeyError = KeyError \/ KeyError = TypeError) /\
    last (trace w') = Some (EvPrint "afe/0" (JDict [])) /\
    awaited 0 w' = Some (JDict []) /\
    inflight (self w') = inflight (self fresh).
Proof.
  apply (response_without_status loads loads_str dumps statusless false "afe/0=1" ["afe/1=2"]
           fresh "afe/0" "1" (JInt 1) 0%nat sent_one publication_one
           (response (correlated id0) "{}")).
  - reflexivity.
  - vm_compute. reflexivity.
  - vm_compute. reflexivity.
  - vm_compute. reflexivity.
  - reflexivity.
  - reflexivity.
  - vm_compute. reflexivity.
  - reflexivity.
Defined.

Lemma two_commands_two_futures :
  [0; 1]%nat = seq (length (futures fresh)) (length two_commands) /\
  NoDup [0; 1]%nat /\
  length (futures two_pending) = (length (futures fresh) + length two_commands)%nat.
Proof.
  apply (futures_are_fresh dumps two_commands fresh [0; 1]%nat two_pending).
  vm_compute. reflexivity.
Defined.

End ConcreteMore.
